(** * The CSV converter (converter/convert_csv.go) and its record-level properties

    A shallow embedding of [convertData] and [convertValue] from
    converter/convert_csv.go, of [ReadCSVString] from utils/utils.go and of
    [ColumnSchema] from types/schema.go.

    Go strings are byte strings, so [string] (a list of 8-bit characters)
    stands for them.  Go maps are finite maps ([gmap]); a nil map is [None].
    Slice indexing is checked at run time in Go: every read [s[i]] and every
    write [s[i] = x] of the source is modelled by [index] and [store], which
    panic out of range, so that the absence of a panic is a theorem and not
    an assumption of the model.  Loop counters and lengths are [nat]: they
    only count positions of slices held in memory. *)

From Stdlib Require Import String Ascii NArith List Arith Lia.
From stdpp Require Import base option list strings gmap.

Local Open Scope string_scope.

(** ** Go's run-time behaviour *)

(** A computation either finishes with a value or panics with
    "index out of range [i] with length n". *)
Inductive exec (A : Type) : Type :=
| Done (a : A)
| Panic (i n : nat).
Arguments Done {A} a.
Arguments Panic {A} i n.

#[global] Instance exec_ret : MRet exec := fun A a => Done a.
#[global] Instance exec_bind : MBind exec := fun A B f m =>
  match m with
  | Done a => f a
  | Panic i n => Panic i n
  end.

(** [fromDone d m] is the value of a finished computation. *)
Definition fromDone {A : Type} (d : A) (m : exec A) : A :=
  match m with
  | Done a => a
  | Panic _ _ => d
  end.

(** [s[i]] as an expression. *)
Definition index {A : Type} (s : list A) (i : nat) : exec A :=
  match s !! i with
  | Some x => Done x
  | None => Panic i (length s)
  end.

(** [s[i] = x] as a statement. *)
Definition store {A : Type} (s : list A) (i : nat) (x : A) : exec (list A) :=
  if decide (i < length s) then Done (<[i:=x]> s) else Panic i (length s).

(** [make([]string, n)]. *)
Definition make (n : nat) : list string := replicate n "".

(** [for i, x := range s { st = body i x st }], counting from [i]. *)
Fixpoint rangeFrom {A St : Type} (i : nat) (s : list A)
    (body : nat -> A -> St -> exec St) (st : St) : exec St :=
  match s with
  | [] => Done st
  | x :: s' => st' ← body i x st; rangeFrom (S i) s' body st'
  end.

Definition range {A St : Type} (s : list A)
    (body : nat -> A -> St -> exec St) (st : St) : exec St :=
  rangeFrom 0 s body st.

(** [for i := i0; i < i0 + steps; i++ { st = body i st }]. *)
Fixpoint forLoop {St : Type} (steps i : nat)
    (body : nat -> St -> exec St) (st : St) : exec St :=
  match steps with
  | 0 => Done st
  | S k => st' ← body i st; forLoop k (S i) body st'
  end.

(** Errors made by [fmt.Errorf]: an error is its message. *)
Inductive error : Type := errorString (msg : string).

Definition Error (e : error) : string :=
  match e with errorString msg => msg end.

(** A Go result pair [(v, err)] with exactly one side set. *)
Inductive result (A : Type) : Type :=
| Ok (v : A)
| Err (err : error).
Arguments Ok {A} v.
Arguments Err {A} err.

(** ** strings.TrimSpace

    [strings.TrimSpace] removes all leading and trailing white space, as
    defined by Unicode.  On the bytes of a string a white-space rune is one of
    the six ASCII bytes of [asciiSpace], one of the two-byte sequences of
    U+0085 and U+00A0, or one of the three-byte sequences of U+1680,
    U+2000..U+200A, U+2028, U+2029, U+202F, U+205F and U+3000.  A byte that is
    not part of such a sequence starts (or ends) a rune that is not white
    space, valid or not, and stops the trimming. *)

Definition asciiSpace (c : ascii) : bool :=
  match N_of_ascii c with
  | 9 | 10 | 11 | 12 | 13 | 32 => true
  | _ => false
  end%N.

Definition isSpace2 (b1 b2 : ascii) : bool :=
  match N_of_ascii b1, N_of_ascii b2 with
  | 0xC2, 0x85 | 0xC2, 0xA0 => true
  | _, _ => false
  end%N.

Definition isSpace3 (b1 b2 b3 : ascii) : bool :=
  match N_of_ascii b1, N_of_ascii b2, N_of_ascii b3 with
  | 0xE1, 0x9A, 0x80 => true
  | 0xE2, 0x80, c =>
      ((0x80 <=? c) && (c <=? 0x8A)) || (c =? 0xA8) || (c =? 0xA9) || (c =? 0xAF)
  | 0xE2, 0x81, 0x9F => true
  | 0xE3, 0x80, 0x80 => true
  | _, _, _ => false
  end%N.

(** Drops the white-space runes at the front of [s].  With [backward] the
    string is read from its end, so the bytes of a rune come last byte
    first. *)
Fixpoint trimFront (backward : bool) (s : string) : string :=
  match s with
  | EmptyString => EmptyString
  | String b1 s1 =>
      if asciiSpace b1 then trimFront backward s1
      else
        match s1 with
        | EmptyString => s
        | String b2 s2 =>
            if (if backward then isSpace2 b2 b1 else isSpace2 b1 b2)
            then trimFront backward s2
            else
              match s2 with
              | EmptyString => s
              | String b3 s3 =>
                  if (if backward then isSpace3 b3 b2 b1 else isSpace3 b1 b2 b3)
                  then trimFront backward s3
                  else s
              end
        end
  end.

Definition TrimSpace (s : string) : string :=
  String.rev (trimFront true (String.rev (trimFront false s))).

(** The width in bytes of the white-space rune at the front of [s], or 0. *)
Definition spaceWidth (backward : bool) (s : string) : nat :=
  match s with
  | EmptyString => 0
  | String b1 s1 =>
      if asciiSpace b1 then 1
      else
        match s1 with
        | EmptyString => 0
        | String b2 s2 =>
            if (if backward then isSpace2 b2 b1 else isSpace2 b1 b2) then 2
            else
              match s2 with
              | EmptyString => 0
              | String b3 s3 =>
                  if (if backward then isSpace3 b3 b2 b1 else isSpace3 b1 b2 b3)
                  then 3 else 0
              end
        end
  end.

(** ** types/schema.go *)

Record ColumnSchema : Type := {
  Column : string;
  TargetColumn : string;
  Values : list string;
  ValuesMapping : option (gmap string string)
}.

(** ** converter/convert_csv.go *)

Definition convertValue (value : string) (sourceCol : ColumnSchema) : string :=
  match ValuesMapping sourceCol with
  | Some mapping =>
      match mapping !! value with
      | Some mappedValue => mappedValue
      | None => value
      end
  | None => value
  end.

(** The loop over [records[0]] that fills [sourceColIndex]; a map assignment
    cannot panic, so the loop is a plain fold. *)
Fixpoint buildSourceColIndex (i : nat) (header : list string)
    (sourceColIndex : gmap string nat) : gmap string nat :=
  match header with
  | [] => sourceColIndex
  | colName :: rest =>
      buildSourceColIndex (S i) rest (<[TrimSpace colName := i]> sourceColIndex)
  end.

(** The body of [if sourceCol.TargetColumn == targetCol.Column], up to its
    [break]: the value the matching entry [sourceCol] gives, or [value]
    untouched. *)
Definition readSourceValue (sourceColIndex : gmap string nat)
    (sourceRow : list string) (sourceCol : ColumnSchema)
    (value : string) : exec string :=
  match sourceColIndex !! Column sourceCol with
  | Some colIdx =>
      if decide (colIdx < length sourceRow) then
        cell ← index sourceRow colIdx;
        let sourceValue := TrimSpace cell in
        if decide (sourceValue ≠ "")
        then Done (convertValue sourceValue sourceCol)
        else Done value
      else Done value
  | None => Done value
  end.

(** The innermost loop, [for _, sourceCol := range sourceSchema], which stops
    at the first entry whose [TargetColumn] is the target column's name. *)
Fixpoint scanSourceSchema (sourceColIndex : gmap string nat)
    (sourceRow : list string) (targetCol : ColumnSchema)
    (sourceSchema : list ColumnSchema) (value : string) : exec string :=
  match sourceSchema with
  | [] => Done value
  | sourceCol :: rest =>
      if decide (TargetColumn sourceCol = Column targetCol)
      then readSourceValue sourceColIndex sourceRow sourceCol value
      else scanSourceSchema sourceColIndex sourceRow targetCol rest value
  end.

(** The body of the loop over the data rows: one output row. *)
Definition convertRow (sourceColIndex : gmap string nat)
    (sourceSchema targetSchema : list ColumnSchema)
    (sourceRow : list string) : exec (list string) :=
  range targetSchema
    (fun i targetCol outputRow =>
       value ← scanSourceSchema sourceColIndex sourceRow targetCol sourceSchema "";
       store outputRow i value)
    (make (length targetSchema)).

(** [convertData] from the point where the CSV text has been parsed. *)
Definition convertRecords (records : list (list string))
    (sourceSchema targetSchema : list ColumnSchema) : exec (list (list string)) :=
  header ← index records 0;
  let sourceColIndex := buildSourceColIndex 0 header ∅ in
  outputHeader ← range targetSchema
                   (fun i col outputHeader => store outputHeader i (Column col))
                   (make (length targetSchema));
  forLoop (length records - 1) 1
    (fun rowIdx output =>
       sourceRow ← index records rowIdx;
       outputRow ← convertRow sourceColIndex sourceSchema targetSchema sourceRow;
       Done (output ++ [outputRow])%list)
    ([] ++ [outputHeader])%list.

(** ** The variant with a precomputed index

    The variant the design notes recommend: the scan of the source schema is
    replaced by one lookup in a map from target-column name to source entry,
    built once per call and keeping, for each name, the first entry in
    declared order. *)

Fixpoint buildTargetIndex (sourceSchema : list ColumnSchema)
    (targetIndex : gmap string ColumnSchema) : gmap string ColumnSchema :=
  match sourceSchema with
  | [] => targetIndex
  | sourceCol :: rest =>
      buildTargetIndex rest
        (match targetIndex !! TargetColumn sourceCol with
         | Some _ => targetIndex
         | None => <[TargetColumn sourceCol := sourceCol]> targetIndex
         end)
  end.

Definition lookupSourceSchema (sourceColIndex : gmap string nat)
    (sourceRow : list string) (targetCol : ColumnSchema)
    (targetIndex : gmap string ColumnSchema) (value : string) : exec string :=
  match targetIndex !! Column targetCol with
  | Some sourceCol => readSourceValue sourceColIndex sourceRow sourceCol value
  | None => Done value
  end.

Definition convertRowIndexed (sourceColIndex : gmap string nat)
    (targetIndex : gmap string ColumnSchema) (targetSchema : list ColumnSchema)
    (sourceRow : list string) : exec (list string) :=
  range targetSchema
    (fun i targetCol outputRow =>
       value ← lookupSourceSchema sourceColIndex sourceRow targetCol targetIndex "";
       store outputRow i value)
    (make (length targetSchema)).

Definition convertRecordsIndexed (records : list (list string))
    (sourceSchema targetSchema : list ColumnSchema) : exec (list (list string)) :=
  header ← index records 0;
  let sourceColIndex := buildSourceColIndex 0 header ∅ in
  let targetIndex := buildTargetIndex sourceSchema ∅ in
  outputHeader ← range targetSchema
                   (fun i col outputHeader => store outputHeader i (Column col))
                   (make (length targetSchema));
  forLoop (length records - 1) 1
    (fun rowIdx output =>
       sourceRow ← index records rowIdx;
       outputRow ← convertRowIndexed sourceColIndex targetIndex targetSchema sourceRow;
       Done (output ++ [outputRow])%list)
    ([] ++ [outputHeader])%list.

Section Parsing.

(** [csv.NewReader(strings.NewReader(csvString)).ReadAll()] of the
    standard library's encoding/csv. *)
Variable ReadAll : string -> result (list (list string)).

(** utils/utils.go *)
Definition ReadCSVString (csvString : string) : result (list (list string)) :=
  if decide (String.length csvString = 0)
  then Err (errorString "no CSV data to convert")
  else
    match ReadAll csvString with
    | Err err => Err (errorString ("failed to parse CSV: " ++ Error err))
    | Ok records =>
        if decide (length records < 1)
        then Err (errorString "CSV has no data")
        else Ok records
    end.

Definition convertData (csvString : string)
    (sourceSchema targetSchema : list ColumnSchema)
    : exec (result (list (list string))) :=
  match ReadCSVString csvString with
  | Err err => Done (Err (errorString ("failed to parse CSV: " ++ Error err)))
  | Ok records =>
      output ← convertRecords records sourceSchema targetSchema;
      Done (Ok output)
  end.

Definition convertDataIndexed (csvString : string)
    (sourceSchema targetSchema : list ColumnSchema)
    : exec (result (list (list string))) :=
  match ReadCSVString csvString with
  | Err err => Done (Err (errorString ("failed to parse CSV: " ++ Error err)))
  | Ok records =>
      output ← convertRecordsIndexed records sourceSchema targetSchema;
      Done (Ok output)
  end.

End Parsing.

(** ** Vocabulary of the properties *)

(** [sourceCol] is the first entry of [sourceSchema], in declared order, whose
    [TargetColumn] is [name]. *)
Definition firstMatch (sourceSchema : list ColumnSchema) (name : string)
    (sourceCol : ColumnSchema) : Prop :=
  exists before after,
    sourceSchema = (before ++ sourceCol :: after)%list
    /\ Forall (fun c => TargetColumn c ≠ name) before
    /\ TargetColumn sourceCol = name.

(** [p] is the last position of [header] whose trimmed name is [name]. *)
Definition lastPosition (header : list string) (name : string) (p : nat) : Prop :=
  exists before h after,
    header = (before ++ h :: after)%list
    /\ length before = p
    /\ TrimSpace h = name
    /\ Forall (fun h' => TrimSpace h' ≠ name) after.

(** The conversion of [records] finishes and cell [i] of row [r] of its output
    is [v]; row 0 is the header. *)
Definition cellAt (records : list (list string))
    (sourceSchema targetSchema : list ColumnSchema)
    (r i : nat) (v : string) : Prop :=
  exists output outputRow,
    convertRecords records sourceSchema targetSchema = Done output
    /\ output !! r = Some outputRow
    /\ outputRow !! i = Some v.

(** The value the scan leaves in [value] for one target column of one row. *)
Definition cellValue (sourceColIndex : gmap string nat)
    (sourceSchema : list ColumnSchema) (sourceRow : list string)
    (targetCol : ColumnSchema) : string :=
  fromDone ""
    (scanSourceSchema sourceColIndex sourceRow targetCol sourceSchema "").

(** An identity schema: every entry feeds the target column of its own name
    and has no values mapping. *)
Definition identitySchema (schema : list ColumnSchema) : Prop :=
  Forall (fun c => TargetColumn c = Column c /\ ValuesMapping c = None) schema.

(** A schema entry as the JSON decoder leaves it when only these three fields
    are given. *)
Definition col (c t : string) (vm : option (gmap string string)) : ColumnSchema :=
  {| Column := c; TargetColumn := t; Values := []; ValuesMapping := vm |}.

(** ** Go's strings package, as utils/utils.go uses it

    [HasPrefix], [HasSuffix], [TrimPrefix], [TrimSuffix], [Contains] and
    [LastIndex] are the functions of the standard library's strings package,
    by their documented results on the bytes of a string.  An [int] is a
    [Z]. *)

(** [s[n:]] and [s[:n]], for [n <= len(s)]. *)
Fixpoint dropBytes (n : nat) (s : string) : string :=
  match n, s with
  | S n', String _ s' => dropBytes n' s'
  | _, _ => s
  end.

Fixpoint takeBytes (n : nat) (s : string) : string :=
  match n, s with
  | S n', String c s' => String c (takeBytes n' s')
  | _, _ => EmptyString
  end.

Fixpoint HasPrefix (s prefix : string) {struct prefix} : bool :=
  match prefix with
  | EmptyString => true
  | String p prefix' =>
      match s with
      | EmptyString => false
      | String c s' => if decide (c = p) then HasPrefix s' prefix' else false
      end
  end.

Definition HasSuffix (s suffix : string) : bool :=
  Nat.leb (String.length suffix) (String.length s)
  && bool_decide (dropBytes (String.length s - String.length suffix) s = suffix).

Definition TrimPrefix (s prefix : string) : string :=
  if HasPrefix s prefix then dropBytes (String.length prefix) s else s.

Definition TrimSuffix (s suffix : string) : string :=
  if HasSuffix s suffix
  then takeBytes (String.length s - String.length suffix) s
  else s.

Fixpoint Contains (s substr : string) : bool :=
  HasPrefix s substr
  || match s with
     | EmptyString => false
     | String _ s' => Contains s' substr
     end.

(** The index of the last instance of [substr] in [s], or -1; [i] is the
    index of the first byte of [s]. *)
Fixpoint lastIndexFrom (i : Z) (s substr : string) : Z :=
  match s with
  | EmptyString => if HasPrefix s substr then i else (-1)%Z
  | String _ s' =>
      let later := lastIndexFrom (i + 1)%Z s' substr in
      if decide (later = (-1)%Z)
      then (if HasPrefix s substr then i else (-1)%Z)
      else later
  end.

Definition LastIndex (s substr : string) : Z := lastIndexFrom 0%Z s substr.

(** The slice expression [s[low:]], which panics with "slice bounds out of
    range" unless [0 <= low <= len(s)]. *)
Definition sliceFrom (s : string) (low : Z) : exec string :=
  if decide (0 <= low <= Z.of_nat (String.length s))%Z
  then Done (dropBytes (Z.to_nat low) s)
  else Panic (Z.to_nat low) (String.length s).

(** ** utils/utils.go, ParseAIResponse *)

Section Decoding.

(** [json.Unmarshal([]byte(cleaned), &schema)] of the standard library's
    encoding/json, with the schema it fills. *)
Variable Unmarshal : string -> result (list ColumnSchema).

(** The end of [ParseAIResponse]: decoding the cleaned text. *)
Definition unmarshalCleaned (cleaned : string) : result (list ColumnSchema) :=
  match Unmarshal cleaned with
  | Err err =>
      Err (errorString ("JSON unmarshal error: " ++ Error err
                        ++ String (ascii_of_nat 10) "Cleaned response: " ++ cleaned))
  | Ok schema => Ok schema
  end.

Definition ParseAIResponse (resp : string) : exec (result (list ColumnSchema)) :=
  let resp := TrimSpace resp in
  let resp := TrimPrefix resp "```json" in
  let resp := TrimPrefix resp "```" in
  let resp := TrimSuffix resp "```" in
  let resp := TrimSpace resp in
  resp ← (if Contains resp "<think>" then
            let lastThinkEnd := LastIndex resp "</think>" in
            if decide (lastThinkEnd ≠ (-1)%Z) then
              resp ← sliceFrom resp (lastThinkEnd + 8)%Z;
              Done (TrimSpace resp)
            else Done resp
          else Done resp);
  let cleaned := TrimSpace resp in
  Done (unmarshalCleaned cleaned).

End Decoding.

(** ** utils/utils.go, ReadCSVFile *)

(** The slice expression [s[low:]] on a slice. *)
Definition sliceList {A : Type} (s : list A) (low : nat) : exec (list A) :=
  if decide (low <= length s) then Done (drop low s) else Panic low (length s).

(** The bytes of a list of strings, one after the other. *)
Definition joinStrings (parts : list string) : string :=
  foldr String.append "" parts.

Section Files.

(** An open file, [os.Open], and [ReadAll] of the reader that
    [ReadCSVFile] sets up on it (with LazyQuotes and TrimLeadingSpace). *)
Variable File : Type.
Variable Open : string -> result File.
Variable ReadAllLazy : File -> result (list (list string)).

(** The bytes that [csvWriter.Write(record)] adds to the buffer, once
    flushed. *)
Variable WriteRecord : list string -> string.

Definition ReadCSVFile (path : string) : exec (result string) :=
  match Open path with
  | Err err => Done (Err err)
  | Ok file =>
      match ReadAllLazy file with
      | Err err => Done (Err err)
      | Ok records =>
          if decide (length records < 2)
          then Done (Err (errorString
                            "CSV must have at least header and one data row"))
          else
            headers ← index records 0;
            dataRows ← sliceList records 1;
            let csvBuffer := "" ++ WriteRecord headers in
            csvBuffer ← forLoop (length dataRows) 0
                          (fun i csvBuffer =>
                             dataRow ← index dataRows i;
                             Done (csvBuffer ++ WriteRecord dataRow))
                          csvBuffer;
            Done (Ok csvBuffer)
      end
  end.

End Files.

(** A writer to run the examples: what encoding/csv writes for fields that
    need no quoting, the fields with commas between them and a newline. *)
Definition writeUnquoted (record : list string) : string :=
  String.concat "," record ++ String (ascii_of_nat 10) "".

(** ** A reader to run the examples

    The theorems hold for every reader.  To run [convertData] on a text the
    examples use what encoding/csv does on a text without quotes and carriage
    returns: records are lines, empty lines are skipped, fields are separated
    by commas, and every record must have as many fields as the first. *)

Definition newline : ascii := ascii_of_nat 10.

Fixpoint splitOn (sep : ascii) (s : string) : list string :=
  match s with
  | EmptyString => [EmptyString]
  | String c s' =>
      if decide (c = sep) then EmptyString :: splitOn sep s'
      else
        match splitOn sep s' with
        | field :: fields => String c field :: fields
        | [] => [String c EmptyString]
        end
  end.

Definition readUnquoted (csvString : string) : result (list (list string)) :=
  let lines := filter (fun line => line ≠ "") (splitOn newline csvString) in
  let records := map (splitOn ",") lines in
  match records with
  | [] => Ok []
  | first :: rest =>
      if forallb (fun record => Nat.eqb (length record) (length first)) rest
      then Ok records
      else Err (errorString "wrong number of fields")
  end.

Definition line (s : string) : string := s ++ String newline "".

(** A decoder to run the examples of [ParseAIResponse]: it accepts the
    empty JSON array and nothing else. *)
Definition decodeExample (cleaned : string) : result (list ColumnSchema) :=
  if decide (cleaned = "[]") then Ok []
  else Err (errorString "invalid character").

(** ** Running the converter *)

Example TrimSpace_ascii : TrimSpace (" " ++ String (ascii_of_nat 9) "a b  ") = "a b".
Proof. vm_compute. reflexivity. Qed.

(** U+00A0 and U+3000 are trimmed; a lone byte 0xC2 is not. *)
Example TrimSpace_unicode :
  let nbsp := String (ascii_of_nat 194) (String (ascii_of_nat 160) "") in
  let ideographic :=
    String (ascii_of_nat 227) (String (ascii_of_nat 128) (String (ascii_of_nat 128) "")) in
  TrimSpace (nbsp ++ "a" ++ ideographic) = "a"
  /\ TrimSpace (String (ascii_of_nat 194) " ") = String (ascii_of_nat 194) "".
Proof. vm_compute. split; reflexivity. Qed.

(** The example of the specification. *)
Example spec_example :
  convertRecords [["active_status"]; ["Y"]; ["N"]; [""]]
    [col "active_status" "is_active" (Some (<["Y":="true"]> (<["N":="false"]> ∅)))]
    [col "is_active" "" None]
  = Done [["is_active"]; ["true"]; ["false"]; [""]].
Proof. vm_compute. reflexivity. Qed.

Example readUnquoted_example :
  readUnquoted (line "x,k" ++ line " 1,2") = Ok [["x"; "k"]; [" 1"; "2"]].
Proof. vm_compute. reflexivity. Qed.

(** Rows shorter and longer than the header. *)
Example ragged_rows :
  convertRecords [["a"; "b"]; []; ["1"]; ["1"; "2"; "3"]]
    [col "b" "t" None] [col "t" "" None]
  = Done [["t"]; [""]; [""]; ["2"]].
Proof. vm_compute. reflexivity. Qed.

(** Without the parser's check the header access would panic. *)
Example convertRecords_no_header :
  convertRecords [] [] [] = Panic 0 0.
Proof. reflexivity. Qed.

(** Closes [a ≠ b] between closed strings, maps or rows by evaluation. *)
Ltac differ :=
  let H := fresh in intros H; vm_compute in H; discriminate H.

(** ** The loops, one lemma each *)

Lemma index_lookup {A : Type} (s : list A) (i : nat) (x : A) :
  s !! i = Some x -> index s i = Done x.
Proof. intros H. unfold index. now rewrite H. Qed.

Lemma index_lt {A : Type} (s : list A) (i : nat) :
  i < length s -> exists x, s !! i = Some x /\ index s i = Done x.
Proof.
  intros H. destruct (lookup_lt_is_Some_2 s i H) as [x Hx].
  exists x. split; [exact Hx | now apply index_lookup].
Qed.

Lemma store_lt {A : Type} (s : list A) (i : nat) (x : A) :
  i < length s -> store s i x = Done (<[i:=x]> s).
Proof. intros H. unfold store. destruct (decide (i < length s)); [reflexivity | lia]. Qed.

Lemma lookup_map {A B : Type} (f : A -> B) (s : list A) (i : nat) :
  map f s !! i = f <$> s !! i.
Proof.
  revert i. induction s as [|x s IH]; intros [|i]; simpl; try reflexivity.
  apply IH.
Qed.

(** A [range] loop that writes [f x] at each position of a fresh slice
    builds [map f s], and none of its writes is out of range. *)
Lemma rangeFrom_store {A B : Type} (f : A -> B) (d : B)
    (body : nat -> A -> list B -> exec (list B)) :
  (forall i x acc, body i x acc = store acc i (f x)) ->
  forall (s : list A) (filled : list B),
    rangeFrom (length filled) s body (filled ++ replicate (length s) d)%list
    = Done (filled ++ map f s)%list.
Proof.
  intros Hbody s. induction s as [|x s IH]; intros filled; simpl.
  - reflexivity.
  - rewrite Hbody, store_lt by (rewrite length_app; simpl; lia).
    simpl. rewrite (insert_app_r_alt filled) by lia.
    rewrite Nat.sub_diag. simpl.
    specialize (IH (filled ++ [f x])%list).
    rewrite length_app in IH. simpl in IH.
    rewrite Nat.add_1_r, <- !app_assoc in IH. exact IH.
Qed.

Lemma range_store {A B : Type} (f : A -> B) (d : B)
    (body : nat -> A -> list B -> exec (list B)) (s : list A) :
  (forall i x acc, body i x acc = store acc i (f x)) ->
  range s body (replicate (length s) d) = Done (map f s).
Proof.
  intros Hbody. exact (rangeFrom_store f d body Hbody s []).
Qed.

(** A counted loop that reads [records[i]], computes a row from it and
    appends the row visits the records from [i] on, in order. *)
Lemma forLoop_append {A B : Type} (h : A -> exec B) (hf : A -> B)
    (records : list A) :
  (forall row, h row = Done (hf row)) ->
  forall (rows seen : list A) (output : list B),
    records = (seen ++ rows)%list ->
    forLoop (length rows) (length seen)
      (fun rowIdx output =>
         sourceRow ← index records rowIdx;
         outputRow ← h sourceRow;
         Done (output ++ [outputRow])%list)
      output
    = Done (output ++ map hf rows)%list.
Proof.
  intros Hh rows. induction rows as [|row rows IH]; intros seen output Hrec; simpl.
  - now rewrite app_nil_r.
  - rewrite (index_lookup records (length seen) row).
    2:{ rewrite Hrec. now apply list_lookup_middle. }
    simpl. rewrite Hh. simpl.
    specialize (IH (seen ++ [row])%list (output ++ [hf row])%list).
    rewrite length_app in IH. simpl in IH.
    rewrite Nat.add_1_r, <- !app_assoc in IH.
    apply IH. exact Hrec.
Qed.

(** ** One cell *)

(** The one read of the source row is behind the test
    [colIdx < len(sourceRow)], so it never panics. *)
Lemma readSourceValue_done sourceColIndex sourceRow sourceCol value :
  readSourceValue sourceColIndex sourceRow sourceCol value
  = Done (fromDone value
            (readSourceValue sourceColIndex sourceRow sourceCol value)).
Proof.
  unfold readSourceValue.
  destruct (sourceColIndex !! Column sourceCol) as [colIdx|]; [|reflexivity].
  destruct (decide (colIdx < length sourceRow)) as [Hlt|]; [|reflexivity].
  destruct (index_lt sourceRow colIdx Hlt) as (cell & _ & ->). simpl.
  destruct (decide (TrimSpace cell ≠ "")); reflexivity.
Qed.

Lemma scanSourceSchema_done sourceColIndex sourceRow targetCol sourceSchema value :
  scanSourceSchema sourceColIndex sourceRow targetCol sourceSchema value
  = Done (fromDone value
            (scanSourceSchema sourceColIndex sourceRow targetCol sourceSchema value)).
Proof.
  induction sourceSchema as [|sourceCol rest IH]; simpl.
  - reflexivity.
  - destruct (decide (TargetColumn sourceCol = Column targetCol)); [|exact IH].
    apply readSourceValue_done.
Qed.

Lemma scanSourceSchema_no_match sourceColIndex sourceRow targetCol sourceSchema value :
  Forall (fun c => TargetColumn c ≠ Column targetCol) sourceSchema ->
  scanSourceSchema sourceColIndex sourceRow targetCol sourceSchema value = Done value.
Proof.
  induction 1 as [|sourceCol rest Hne _ IH]; simpl.
  - reflexivity.
  - destruct (decide (TargetColumn sourceCol = Column targetCol)); [contradiction | exact IH].
Qed.

Lemma scanSourceSchema_first sourceColIndex sourceRow targetCol sourceSchema sourceCol value :
  firstMatch sourceSchema (Column targetCol) sourceCol ->
  scanSourceSchema sourceColIndex sourceRow targetCol sourceSchema value
  = readSourceValue sourceColIndex sourceRow sourceCol value.
Proof.
  intros (before & after & -> & Hbefore & Hmatch).
  induction Hbefore as [|c before Hne _ IH]; simpl.
  - destruct (decide (TargetColumn sourceCol = Column targetCol)); [reflexivity | contradiction].
  - destruct (decide (TargetColumn c = Column targetCol)); [contradiction | exact IH].
Qed.

(** The scan either finds a first match or finds none. *)
Lemma firstMatch_dec sourceSchema name :
  (exists sourceCol, firstMatch sourceSchema name sourceCol)
  \/ Forall (fun c => TargetColumn c ≠ name) sourceSchema.
Proof.
  induction sourceSchema as [|c rest IH].
  - right. constructor.
  - destruct (decide (TargetColumn c = name)) as [Heq|Hne].
    + left. exists c, [], rest. repeat split; [constructor | exact Heq].
    + destruct IH as [(sourceCol & before & after & -> & Hb & Hm)|Hall].
      * left. exists sourceCol, (c :: before), after.
        repeat split; [constructor; assumption | exact Hm].
      * right. constructor; assumption.
Qed.

Lemma cellValue_no_match sourceColIndex sourceSchema sourceRow targetCol :
  Forall (fun c => TargetColumn c ≠ Column targetCol) sourceSchema ->
  cellValue sourceColIndex sourceSchema sourceRow targetCol = "".
Proof.
  intros H. unfold cellValue. now rewrite scanSourceSchema_no_match.
Qed.

Lemma cellValue_unindexed sourceColIndex sourceSchema sourceRow targetCol sourceCol :
  firstMatch sourceSchema (Column targetCol) sourceCol ->
  sourceColIndex !! Column sourceCol = None ->
  cellValue sourceColIndex sourceSchema sourceRow targetCol = "".
Proof.
  intros Hfirst Hidx. unfold cellValue.
  rewrite (scanSourceSchema_first _ _ _ _ _ _ Hfirst).
  unfold readSourceValue. now rewrite Hidx.
Qed.

Lemma cellValue_short sourceColIndex sourceSchema sourceRow targetCol sourceCol colIdx :
  firstMatch sourceSchema (Column targetCol) sourceCol ->
  sourceColIndex !! Column sourceCol = Some colIdx ->
  length sourceRow <= colIdx ->
  cellValue sourceColIndex sourceSchema sourceRow targetCol = "".
Proof.
  intros Hfirst Hidx Hlen. unfold cellValue.
  rewrite (scanSourceSchema_first _ _ _ _ _ _ Hfirst).
  unfold readSourceValue. rewrite Hidx.
  destruct (decide (colIdx < length sourceRow)); [lia | reflexivity].
Qed.

Lemma cellValue_read sourceColIndex sourceSchema sourceRow targetCol sourceCol colIdx cell :
  firstMatch sourceSchema (Column targetCol) sourceCol ->
  sourceColIndex !! Column sourceCol = Some colIdx ->
  sourceRow !! colIdx = Some cell ->
  cellValue sourceColIndex sourceSchema sourceRow targetCol
  = if decide (TrimSpace cell ≠ "")
    then convertValue (TrimSpace cell) sourceCol
    else "".
Proof.
  intros Hfirst Hidx Hcell. unfold cellValue.
  rewrite (scanSourceSchema_first _ _ _ _ _ _ Hfirst).
  unfold readSourceValue. rewrite Hidx.
  destruct (decide (colIdx < length sourceRow)) as [_|Hge].
  - rewrite (index_lookup _ _ _ Hcell). simpl.
    destruct (decide (TrimSpace cell ≠ "")); reflexivity.
  - apply lookup_lt_Some in Hcell. lia.
Qed.

(** The scan looks at the target column's name only. *)
Lemma cellValue_same_name sourceColIndex sourceSchema sourceRow targetCol targetCol' :
  Column targetCol = Column targetCol' ->
  cellValue sourceColIndex sourceSchema sourceRow targetCol
  = cellValue sourceColIndex sourceSchema sourceRow targetCol'.
Proof.
  intros Hname. unfold cellValue. f_equal.
  induction sourceSchema as [|c rest IH]; simpl; [reflexivity|].
  rewrite <- Hname.
  destruct (decide (TargetColumn c = Column targetCol)); [reflexivity | exact IH].
Qed.

(** ** The whole table *)

Lemma convertRow_done sourceColIndex sourceSchema targetSchema sourceRow :
  convertRow sourceColIndex sourceSchema targetSchema sourceRow
  = Done (map (cellValue sourceColIndex sourceSchema sourceRow) targetSchema).
Proof.
  unfold convertRow, make. apply range_store.
  intros i targetCol acc. rewrite scanSourceSchema_done. reflexivity.
Qed.

(** What [convertRecords] returns on a header and its data rows. *)
Lemma convertRecords_done header rows sourceSchema targetSchema :
  convertRecords (header :: rows) sourceSchema targetSchema
  = Done (map Column targetSchema
          :: map (fun sourceRow =>
                    map (cellValue (buildSourceColIndex 0 header ∅)
                           sourceSchema sourceRow) targetSchema)
                 rows).
Proof.
  unfold convertRecords. simpl.
  unfold make. rewrite (range_store Column) by reflexivity. simpl.
  rewrite Nat.sub_0_r.
  exact (forLoop_append _ _ (header :: rows)
           (convertRow_done _ sourceSchema targetSchema)
           rows [header] [map Column targetSchema] eq_refl).
Qed.

Lemma cellAt_data header rows sourceSchema targetSchema r sourceRow i targetCol :
  rows !! r = Some sourceRow ->
  targetSchema !! i = Some targetCol ->
  cellAt (header :: rows) sourceSchema targetSchema (S r) i
    (cellValue (buildSourceColIndex 0 header ∅) sourceSchema sourceRow targetCol).
Proof.
  intros Hrow Hcol. unfold cellAt. rewrite convertRecords_done.
  eexists _, _. split; [reflexivity|]. simpl.
  rewrite lookup_map, Hrow. simpl. split; [reflexivity|].
  now rewrite lookup_map, Hcol.
Qed.

(** ** The header-position map *)

Lemma buildSourceColIndex_other i header sourceColIndex name :
  Forall (fun h => TrimSpace h ≠ name) header ->
  buildSourceColIndex i header sourceColIndex !! name = sourceColIndex !! name.
Proof.
  intros H. revert i sourceColIndex.
  induction H as [|h rest Hne _ IH]; intros i sourceColIndex; simpl.
  - reflexivity.
  - rewrite IH. now apply lookup_insert_ne.
Qed.

Lemma buildSourceColIndex_last i header sourceColIndex name p :
  lastPosition header name p ->
  buildSourceColIndex i header sourceColIndex !! name = Some (i + p).
Proof.
  intros (before & h & after & -> & <- & Hname & Hafter).
  revert i sourceColIndex.
  induction before as [|b before IH]; intros i sourceColIndex; simpl.
  - rewrite (buildSourceColIndex_other _ _ _ _ Hafter), Hname, Nat.add_0_r.
    apply lookup_insert_eq.
  - rewrite IH. f_equal. lia.
Qed.

(** A name that no header cell trims to is not in the map. *)
Lemma buildSourceColIndex_absent header name :
  Forall (fun h => TrimSpace h ≠ name) header ->
  buildSourceColIndex 0 header ∅ !! name = None.
Proof.
  intros H. now rewrite buildSourceColIndex_other.
Qed.

(** A name that some header cell trims to has a last position. *)
Lemma lastPosition_exists header name :
  In name (map TrimSpace header) ->
  exists p, lastPosition header name p.
Proof.
  induction header as [|h rest IH]; simpl; [contradiction|].
  intros Hin.
  destruct (in_dec String.string_dec name (map TrimSpace rest)) as [Hrest|Hrest].
  - destruct (IH Hrest) as (p & before & h' & after & -> & <- & Hn & Ha).
    exists (S (length before)), (h :: before), h', after. repeat split; assumption.
  - destruct Hin as [Hh|Hin]; [|contradiction].
    exists 0, [], h, rest. repeat split; [assumption|].
    apply Forall_forall. intros h' Hin' Hh'. apply Hrest.
    rewrite <- Hh'. apply in_map. now apply list_elem_of_In.
Qed.

Lemma map_ext_Forall {A B : Type} (f g : A -> B) (s : list A) :
  Forall (fun x => f x = g x) s -> map f s = map g s.
Proof.
  induction 1 as [|x s Hx _ IH]; simpl; [reflexivity|].
  now rewrite Hx, IH.
Qed.

(** ** The parser's guarantees *)

Lemma length_zero_empty (s : string) : String.length s = 0 -> s = "".
Proof. destruct s; [reflexivity | discriminate]. Qed.

Lemma ReadCSVString_Ok ReadAll csvString records :
  ReadCSVString ReadAll csvString = Ok records ->
  csvString ≠ "" /\ ReadAll csvString = Ok records
  /\ exists header rows, records = header :: rows.
Proof.
  unfold ReadCSVString.
  destruct (decide (String.length csvString = 0)) as [|Hlen]; [discriminate|].
  destruct (ReadAll csvString) as [records'|err]; [|discriminate].
  destruct (decide (length records' < 1)) as [|Hrec]; [discriminate|].
  intros [= <-]. split; [intros ->; now apply Hlen|]. split; [reflexivity|].
  destruct records' as [|header rows]; [simpl in Hrec; lia|]. eauto.
Qed.

Lemma ReadCSVString_records ReadAll csvString header rows :
  csvString ≠ "" ->
  ReadAll csvString = Ok (header :: rows) ->
  ReadCSVString ReadAll csvString = Ok (header :: rows).
Proof.
  intros Hne Hread. unfold ReadCSVString.
  destruct (decide (String.length csvString = 0)) as [Hlen|_].
  - now apply length_zero_empty in Hlen.
  - rewrite Hread. reflexivity.
Qed.

(** ** The shape of the output *)

(** C1.  When the CSV text parses to [records], [convertData] returns a
    table with as many rows as [records]: its first row is the list of the
    target schema's column names, in the target schema's order, and every row,
    header and data, has exactly as many cells as the target schema has
    entries, whatever the source header and source schema are. *)
Theorem convertData_shape ReadAll csvString records sourceSchema targetSchema :
  ReadCSVString ReadAll csvString = Ok records ->
  exists output,
    convertData ReadAll csvString sourceSchema targetSchema = Done (Ok output)
    /\ length output = length records
    /\ output !! 0 = Some (map Column targetSchema)
    /\ Forall (fun row => length row = length targetSchema) output.
Proof.
  intros Hread. unfold convertData. rewrite Hread.
  apply ReadCSVString_Ok in Hread as (_ & _ & header & rows & ->).
  rewrite convertRecords_done. eexists. split; [reflexivity|].
  split; [simpl; now rewrite length_map|].
  split; [reflexivity|].
  constructor; [apply length_map|].
  apply Forall_forall. intros row Hrow.
  apply list_elem_of_In, in_map_iff in Hrow as (sourceRow & <- & _).
  apply length_map.
Qed.

Lemma convertData_shape_witness :
  let csvString := line "id, name ,extra" ++ line "7, Ann ,x" ++ line "8,Bob,y" in
  let sourceSchema := [col "name" "full_name" None; col "id" "key" None] in
  let targetSchema := [col "key" "" None; col "full_name" "" None] in
  ReadCSVString readUnquoted csvString
  = Ok [["id"; " name "; "extra"]; ["7"; " Ann "; "x"]; ["8"; "Bob"; "y"]]
  /\ exists output,
       convertData readUnquoted csvString sourceSchema targetSchema = Done (Ok output)
       /\ length output = 3
       /\ output !! 0 = Some ["key"; "full_name"]
       /\ Forall (fun row => length row = 2) output.
Proof.
  intros csvString sourceSchema targetSchema.
  assert (Hread : ReadCSVString readUnquoted csvString
                  = Ok [["id"; " name "; "extra"]; ["7"; " Ann "; "x"]; ["8"; "Bob"; "y"]])
    by (vm_compute; reflexivity).
  split; [exact Hread|].
  exact (convertData_shape readUnquoted csvString _ sourceSchema targetSchema Hread).
Defined.

(** ** Failure and totality *)

(** C4.  On the empty text, and on a text in which the reader finds no
    record at all, [convertData] returns an error and no table; on a
    non-empty text that the reader parses to at least one record it returns a
    table and no error.  The code has one kind of error, made by
    [fmt.Errorf]; it is the error the specification calls
    MalformedInputError. *)
Theorem convertData_empty_input ReadAll csvString sourceSchema targetSchema :
  (csvString = "" ->
   convertData ReadAll csvString sourceSchema targetSchema
   = Done (Err (errorString "failed to parse CSV: no CSV data to convert")))
  /\ (csvString ≠ "" -> ReadAll csvString = Ok [] ->
      convertData ReadAll csvString sourceSchema targetSchema
      = Done (Err (errorString "failed to parse CSV: CSV has no data")))
  /\ (forall records,
        csvString ≠ "" -> ReadAll csvString = Ok records -> records ≠ [] ->
        exists output,
          convertData ReadAll csvString sourceSchema targetSchema = Done (Ok output)).
Proof.
  split; [|split].
  - intros ->. reflexivity.
  - intros Hne Hread. unfold convertData, ReadCSVString.
    destruct (decide (String.length csvString = 0)) as [Hlen|_].
    + now apply length_zero_empty in Hlen.
    + rewrite Hread. reflexivity.
  - intros [|header rows] Hne Hread Hrec; [contradiction|].
    unfold convertData.
    rewrite (ReadCSVString_records _ _ _ _ Hne Hread), convertRecords_done.
    eexists. reflexivity.
Qed.

Lemma convertData_empty_input_witness :
  let sourceSchema := [col "x" "y" None] in
  let targetSchema := [col "y" "" None] in
  convertData readUnquoted "" sourceSchema targetSchema
  = Done (Err (errorString "failed to parse CSV: no CSV data to convert"))
  /\ convertData readUnquoted (line "" ++ line "") sourceSchema targetSchema
     = Done (Err (errorString "failed to parse CSV: CSV has no data"))
  /\ exists output,
       convertData readUnquoted (line "x" ++ line "1") sourceSchema targetSchema
       = Done (Ok output).
Proof.
  intros sourceSchema targetSchema. split; [|split].
  - exact (proj1 (convertData_empty_input readUnquoted "" sourceSchema targetSchema)
             eq_refl).
  - apply (proj1 (proj2 (convertData_empty_input readUnquoted (line "" ++ line "")
                           sourceSchema targetSchema))).
    + discriminate.
    + vm_compute. reflexivity.
  - apply (proj2 (proj2 (convertData_empty_input readUnquoted (line "x" ++ line "1")
                           sourceSchema targetSchema)) [["x"]; ["1"]]).
    + discriminate.
    + vm_compute. reflexivity.
    + discriminate.
Defined.

(** C10.  [convertData] never panics, for any reader, text and schemas:
    the only read of [records[0]] follows [ReadCSVString], which returns no
    empty record list; from a non-empty record list, however ragged its rows,
    the body finishes; and the scan of the source schema finishes on every
    row, its read of the row being behind [colIdx < len(sourceRow)]. *)
Theorem convertData_no_panic ReadAll csvString sourceSchema targetSchema :
  (exists res, convertData ReadAll csvString sourceSchema targetSchema = Done res)
  /\ (forall records,
        ReadCSVString ReadAll csvString = Ok records -> records ≠ [])
  /\ (forall records,
        records ≠ [] ->
        exists output, convertRecords records sourceSchema targetSchema = Done output)
  /\ (forall sourceColIndex sourceRow targetCol value,
        exists value',
          scanSourceSchema sourceColIndex sourceRow targetCol sourceSchema value
          = Done value').
Proof.
  assert (Hbody : forall records, records ≠ [] ->
            exists output, convertRecords records sourceSchema targetSchema = Done output).
  { intros [|header rows] Hrec; [contradiction|].
    rewrite convertRecords_done. eexists. reflexivity. }
  assert (Hparse : forall records,
            ReadCSVString ReadAll csvString = Ok records -> records ≠ []).
  { intros records Hread.
    apply ReadCSVString_Ok in Hread as (_ & _ & header & rows & ->). discriminate. }
  split; [|split; [exact Hparse|split; [exact Hbody|]]].
  - unfold convertData.
    destruct (ReadCSVString ReadAll csvString) as [records|err] eqn:Hread.
    + destruct (Hbody records (Hparse records eq_refl)) as [output ->].
      eexists. reflexivity.
    + eexists. reflexivity.
  - intros. eexists. apply scanSourceSchema_done.
Qed.

Lemma convertData_no_panic_witness :
  let csvString := line "a,b" ++ line "1,2" in
  let ragged := [["a"; "b"]; []; ["1"]; ["1"; "2"; "3"]] in
  let sourceSchema := [col "b" "t" None] in
  let targetSchema := [col "t" "" None] in
  ReadCSVString readUnquoted csvString = Ok [["a"; "b"]; ["1"; "2"]]
  /\ [["a"; "b"]; ["1"; "2"]] ≠ []
  /\ ragged ≠ []
  /\ exists output, convertRecords ragged sourceSchema targetSchema = Done output.
Proof.
  intros csvString ragged sourceSchema targetSchema.
  pose proof (convertData_no_panic readUnquoted csvString sourceSchema targetSchema)
    as (_ & Hparse & Hbody & _).
  assert (Hread : ReadCSVString readUnquoted csvString = Ok [["a"; "b"]; ["1"; "2"]])
    by (vm_compute; reflexivity).
  split; [exact Hread|].
  split; [exact (Hparse _ Hread)|].
  split; [discriminate|].
  apply Hbody. discriminate.
Defined.

(** ** Cells *)

Lemma firstMatch_head sourceCol rest name :
  TargetColumn sourceCol = name -> firstMatch (sourceCol :: rest) name sourceCol.
Proof. intros H. exists [], rest. repeat split; [constructor | exact H]. Qed.

Lemma firstMatch_tail c rest name sourceCol :
  TargetColumn c ≠ name ->
  firstMatch rest name sourceCol -> firstMatch (c :: rest) name sourceCol.
Proof.
  intros Hne (before & after & -> & Hb & Hm).
  exists (c :: before), after. repeat split; [constructor; assumption | exact Hm].
Qed.

Lemma cellAt_unique records sourceSchema targetSchema r i v v' :
  cellAt records sourceSchema targetSchema r i v ->
  cellAt records sourceSchema targetSchema r i v' ->
  v = v'.
Proof.
  intros (output & row & Hout & Hrow & Hv) (output' & row' & Hout' & Hrow' & Hv').
  congruence.
Qed.

(** C5.  A missing mapping or a missing cell is not an error.  For every
    data row and target column, if no source entry names the target column,
    or the first entry that does has a column name that is not in the
    header-position map, or the row is too short for the position found
    there, then the conversion finishes and the output cell is the empty
    string. *)
Theorem missing_cell_is_empty header rows sourceSchema targetSchema
    r sourceRow i targetCol :
  rows !! r = Some sourceRow ->
  targetSchema !! i = Some targetCol ->
  (Forall (fun c => TargetColumn c ≠ Column targetCol) sourceSchema
   \/ (exists sourceCol,
         firstMatch sourceSchema (Column targetCol) sourceCol
         /\ buildSourceColIndex 0 header ∅ !! Column sourceCol = None)
   \/ (exists sourceCol colIdx,
         firstMatch sourceSchema (Column targetCol) sourceCol
         /\ buildSourceColIndex 0 header ∅ !! Column sourceCol = Some colIdx
         /\ length sourceRow <= colIdx)) ->
  cellAt (header :: rows) sourceSchema targetSchema (S r) i "".
Proof.
  intros Hrow Hcol Hcase.
  pose proof (cellAt_data header rows sourceSchema targetSchema r sourceRow i
                targetCol Hrow Hcol) as Hcell.
  destruct Hcase as [Hnone|[(sourceCol & Hfirst & Hidx)
                           |(sourceCol & colIdx & Hfirst & Hidx & Hlen)]].
  - now rewrite cellValue_no_match in Hcell.
  - now rewrite (cellValue_unindexed _ _ _ _ _ Hfirst Hidx) in Hcell.
  - now rewrite (cellValue_short _ _ _ _ _ _ Hfirst Hidx Hlen) in Hcell.
Qed.

Lemma missing_cell_is_empty_witness :
  let header := ["id"; "name"] in
  let rows := [["7"]] in
  let sourceSchema := [col "name" "full_name" None; col "city" "town" None] in
  let targetSchema := [col "phone" "" None; col "town" "" None; col "full_name" "" None] in
  cellAt (header :: rows) sourceSchema targetSchema 1 0 ""
  /\ cellAt (header :: rows) sourceSchema targetSchema 1 1 ""
  /\ cellAt (header :: rows) sourceSchema targetSchema 1 2 "".
Proof.
  intros header rows sourceSchema targetSchema. split; [|split].
  - apply (missing_cell_is_empty header rows sourceSchema targetSchema
             0 ["7"] 0 (col "phone" "" None)); [reflexivity | reflexivity |].
    left. repeat constructor; differ.
  - apply (missing_cell_is_empty header rows sourceSchema targetSchema
             0 ["7"] 1 (col "town" "" None)); [reflexivity | reflexivity |].
    right. left. exists (col "city" "town" None). split.
    + apply firstMatch_tail; [differ | now apply firstMatch_head].
    + vm_compute. reflexivity.
  - apply (missing_cell_is_empty header rows sourceSchema targetSchema
             0 ["7"] 2 (col "full_name" "" None)); [reflexivity | reflexivity |].
    right. right. exists (col "name" "full_name" None), 1. split; [|split].
    + now apply firstMatch_head.
    + vm_compute. reflexivity.
    + simpl. lia.
Defined.

(** C6.  For every data row and target column, if the source cell the
    first matching entry resolves to trims to the empty string, the output
    cell is the empty string, whatever the entry's values mapping is, also
    when the mapping has the empty string as a key; no transform is tried:
    the scan hands back the value it started with, untouched. *)
Theorem blank_cell_stays_blank header rows sourceSchema targetSchema
    r sourceRow i targetCol sourceCol colIdx cell :
  rows !! r = Some sourceRow ->
  targetSchema !! i = Some targetCol ->
  firstMatch sourceSchema (Column targetCol) sourceCol ->
  buildSourceColIndex 0 header ∅ !! Column sourceCol = Some colIdx ->
  sourceRow !! colIdx = Some cell ->
  TrimSpace cell = "" ->
  cellAt (header :: rows) sourceSchema targetSchema (S r) i ""
  /\ forall value,
       scanSourceSchema (buildSourceColIndex 0 header ∅) sourceRow targetCol
         sourceSchema value
       = Done value.
Proof.
  intros Hrow Hcol Hfirst Hidx Hcell Hblank. split.
  - pose proof (cellAt_data header rows sourceSchema targetSchema r sourceRow i
                  targetCol Hrow Hcol) as Hout.
    rewrite (cellValue_read _ _ _ _ _ _ _ Hfirst Hidx Hcell) in Hout.
    destruct (decide (TrimSpace cell ≠ "")); [contradiction | exact Hout].
  - intros value. rewrite (scanSourceSchema_first _ _ _ _ _ _ Hfirst).
    unfold readSourceValue. rewrite Hidx.
    destruct (decide (colIdx < length sourceRow)); [|reflexivity].
    rewrite (index_lookup _ _ _ Hcell). simpl.
    destruct (decide (TrimSpace cell ≠ "")); [contradiction | reflexivity].
Qed.

Lemma blank_cell_stays_blank_witness :
  let header := ["status"; "id"] in
  let rows := [["  "; "7"]] in
  let sourceCol := col "status" "state" (Some (<["":="unknown"]> (<["Y":="yes"]> ∅))) in
  let targetCol := col "state" "" None in
  ValuesMapping sourceCol = Some (<["":="unknown"]> (<["Y":="yes"]> ∅))
  /\ TrimSpace "  " = ""
  /\ cellAt (header :: rows) [sourceCol] [targetCol] 1 0 "".
Proof.
  intros header rows sourceCol targetCol.
  split; [reflexivity|]. split; [vm_compute; reflexivity|].
  apply (blank_cell_stays_blank header rows [sourceCol] [targetCol]
           0 ["  "; "7"] 0 targetCol sourceCol 0 "  ").
  - reflexivity.
  - reflexivity.
  - now apply firstMatch_head.
  - vm_compute. reflexivity.
  - reflexivity.
  - vm_compute. reflexivity.
Defined.

(** C7.  When a trimmed column name stands at several positions of the
    source header, the header-position map holds its last position, and every
    cell resolved through that name is read from that position of the row. *)
Theorem duplicate_header_last_wins header name p :
  lastPosition header name p ->
  buildSourceColIndex 0 header ∅ !! name = Some p
  /\ forall rows sourceSchema targetSchema r sourceRow i targetCol sourceCol cell,
       rows !! r = Some sourceRow ->
       targetSchema !! i = Some targetCol ->
       firstMatch sourceSchema (Column targetCol) sourceCol ->
       Column sourceCol = name ->
       sourceRow !! p = Some cell ->
       cellAt (header :: rows) sourceSchema targetSchema (S r) i
         (if decide (TrimSpace cell ≠ "")
          then convertValue (TrimSpace cell) sourceCol
          else "").
Proof.
  intros Hlast.
  assert (Hidx : buildSourceColIndex 0 header ∅ !! name = Some p)
    by exact (buildSourceColIndex_last 0 header ∅ name p Hlast).
  split; [exact Hidx|].
  intros rows sourceSchema targetSchema r sourceRow i targetCol sourceCol cell
         Hrow Hcol Hfirst Hname Hcell.
  rewrite <- Hname in Hidx.
  rewrite <- (cellValue_read _ _ _ _ _ _ _ Hfirst Hidx Hcell).
  now apply cellAt_data.
Qed.

Lemma duplicate_header_last_wins_witness :
  let header := ["a"; "b"; " a "] in
  lastPosition header "a" 2
  /\ buildSourceColIndex 0 header ∅ !! "a" = Some 2
  /\ cellAt (header :: [["first"; "x"; "last"]])
       [col "a" "t" None] [col "t" "" None] 1 0 "last".
Proof.
  intros header.
  assert (Hlast : lastPosition header "a" 2).
  { exists ["a"; "b"], " a ", [].
    split; [reflexivity|]. split; [reflexivity|].
    split; [vm_compute; reflexivity | constructor]. }
  split; [exact Hlast|].
  destruct (duplicate_header_last_wins header "a" 2 Hlast) as [Hidx Hcells].
  split; [exact Hidx|].
  exact (Hcells [["first"; "x"; "last"]] [col "a" "t" None] [col "t" "" None]
           0 ["first"; "x"; "last"] 0 (col "t" "" None) (col "a" "t" None) "last"
           eq_refl eq_refl (firstMatch_head _ _ _ eq_refl) eq_refl eq_refl).
Defined.

(** C2, as the code has it.  For every data row and target column, the
    first source entry, in declared order, whose [TargetColumn] is the target
    column's name decides the cell.  With the source cell it resolves to
    trimmed: if the trimmed value is not empty and is a key of the entry's
    values mapping, the output cell is the mapped value; if it is not a key,
    or the entry has no mapping, the output cell is the trimmed value.  (An
    empty trimmed value is never looked up: [convertData] tests
    [sourceValue != ""] before it calls [convertValue].) *)
Theorem mapped_or_passed_through header rows sourceSchema targetSchema
    r sourceRow i targetCol sourceCol colIdx cell :
  rows !! r = Some sourceRow ->
  targetSchema !! i = Some targetCol ->
  firstMatch sourceSchema (Column targetCol) sourceCol ->
  buildSourceColIndex 0 header ∅ !! Column sourceCol = Some colIdx ->
  sourceRow !! colIdx = Some cell ->
  (forall mapping mappedValue,
     ValuesMapping sourceCol = Some mapping ->
     mapping !! TrimSpace cell = Some mappedValue ->
     TrimSpace cell ≠ "" ->
     cellAt (header :: rows) sourceSchema targetSchema (S r) i mappedValue)
  /\ (forall mapping,
        ValuesMapping sourceCol = Some mapping ->
        mapping !! TrimSpace cell = None ->
        cellAt (header :: rows) sourceSchema targetSchema (S r) i (TrimSpace cell))
  /\ (ValuesMapping sourceCol = None ->
      cellAt (header :: rows) sourceSchema targetSchema (S r) i (TrimSpace cell)).
Proof.
  intros Hrow Hcol Hfirst Hidx Hcell.
  pose proof (cellAt_data header rows sourceSchema targetSchema r sourceRow i
                targetCol Hrow Hcol) as Hout.
  rewrite (cellValue_read _ _ _ _ _ _ _ Hfirst Hidx Hcell) in Hout.
  unfold convertValue in Hout.
  split; [|split].
  - intros mapping mappedValue Hmap Hkey Hne.
    destruct (decide (TrimSpace cell ≠ "")); [|contradiction].
    now rewrite Hmap, Hkey in Hout.
  - intros mapping Hmap Hkey. rewrite Hmap, Hkey in Hout.
    destruct (decide (TrimSpace cell ≠ "")) as [|Hblank]; [exact Hout|].
    apply dec_stable in Hblank. now rewrite Hblank.
  - intros Hmap. rewrite Hmap in Hout.
    destruct (decide (TrimSpace cell ≠ "")) as [|Hblank]; [exact Hout|].
    apply dec_stable in Hblank. now rewrite Hblank.
Qed.

Lemma mapped_or_passed_through_witness :
  let header := ["active_status"; "category"; "name"] in
  let rows := [[" Y "; "TOYS"; " Ann"]] in
  let sourceSchema :=
    [col "active_status" "is_active" (Some (<["Y":="true"]> (<["N":="false"]> ∅)));
     col "category" "kind" (Some (<["ELEC":="Electronics"]> ∅));
     col "name" "full_name" None] in
  let targetSchema :=
    [col "full_name" "" None; col "kind" "" None; col "is_active" "" None] in
  cellAt (header :: rows) sourceSchema targetSchema 1 2 "true"
  /\ cellAt (header :: rows) sourceSchema targetSchema 1 1 "TOYS"
  /\ cellAt (header :: rows) sourceSchema targetSchema 1 0 "Ann".
Proof.
  intros header rows sourceSchema targetSchema. split; [|split].
  - refine (proj1 (mapped_or_passed_through header rows sourceSchema targetSchema
                     0 [" Y "; "TOYS"; " Ann"] 2 (col "is_active" "" None)
                     (col "active_status" "is_active"
                        (Some (<["Y":="true"]> (<["N":="false"]> ∅))))
                     0 " Y " eq_refl eq_refl (firstMatch_head _ _ _ eq_refl) _ eq_refl)
                  (<["Y":="true"]> (<["N":="false"]> ∅)) "true" eq_refl _ _).
    + vm_compute. reflexivity.
    + vm_compute. reflexivity.
    + differ.
  - refine (proj1 (proj2 (mapped_or_passed_through header rows sourceSchema targetSchema
                     0 [" Y "; "TOYS"; " Ann"] 1 (col "kind" "" None)
                     (col "category" "kind" (Some (<["ELEC":="Electronics"]> ∅)))
                     1 "TOYS" eq_refl eq_refl _ _ eq_refl))
                  (<["ELEC":="Electronics"]> ∅) eq_refl _).
    + apply firstMatch_tail; [differ | now apply firstMatch_head].
    + vm_compute. reflexivity.
    + vm_compute. reflexivity.
  - refine (proj2 (proj2 (mapped_or_passed_through header rows sourceSchema targetSchema
                     0 [" Y "; "TOYS"; " Ann"] 0 (col "full_name" "" None)
                     (col "name" "full_name" None)
                     2 " Ann" eq_refl eq_refl _ _ eq_refl))
                  eq_refl).
    + apply firstMatch_tail; [differ|].
      apply firstMatch_tail; [differ | now apply firstMatch_head].
    + vm_compute. reflexivity.
Defined.

(** C2, as stated, fails on a blank cell whose entry maps the empty string:
    the trimmed value [""] is a key of the mapping, the mapped value is
    ["N/A"], and the output cell is [""]. *)
Lemma mapped_blank_counterexample :
  let header := ["status"; "id"] in
  let sourceRow := [" "; "7"] in
  let mapping : gmap string string := <["":="N/A"]> ∅ in
  let sourceCol := col "status" "state" (Some mapping) in
  let targetCol := col "state" "" None in
  [sourceRow] !! 0 = Some sourceRow
  /\ [targetCol] !! 0 = Some targetCol
  /\ firstMatch [sourceCol] (Column targetCol) sourceCol
  /\ buildSourceColIndex 0 header ∅ !! Column sourceCol = Some 0
  /\ sourceRow !! 0 = Some " "
  /\ ValuesMapping sourceCol = Some mapping
  /\ mapping !! TrimSpace " " = Some "N/A"
  /\ cellAt [header; sourceRow] [sourceCol] [targetCol] 1 0 ""
  /\ ~ cellAt [header; sourceRow] [sourceCol] [targetCol] 1 0 "N/A".
Proof.
  intros header sourceRow mapping sourceCol targetCol.
  assert (Hcell : cellAt [header; sourceRow] [sourceCol] [targetCol] 1 0 "").
  { exists [["state"]; [""]], [""]. split; [vm_compute; reflexivity|].
    split; reflexivity. }
  split; [reflexivity|]. split; [reflexivity|].
  split; [now apply firstMatch_head|].
  split; [vm_compute; reflexivity|]. split; [reflexivity|].
  split; [reflexivity|]. split; [vm_compute; reflexivity|].
  split; [exact Hcell|].
  intros Hbad. pose proof (cellAt_unique _ _ _ _ _ _ _ Hcell Hbad). discriminate.
Qed.

(** ** Entries without a target column *)

Lemma scanSourceSchema_filter sourceColIndex sourceRow targetCol sourceSchema value :
  Column targetCol ≠ "" ->
  scanSourceSchema sourceColIndex sourceRow targetCol
    (filter (fun c => TargetColumn c ≠ "") sourceSchema) value
  = scanSourceSchema sourceColIndex sourceRow targetCol sourceSchema value.
Proof.
  intros Hname. induction sourceSchema as [|c rest IH]; [reflexivity|].
  rewrite filter_cons. simpl.
  destruct (decide (TargetColumn c ≠ "")) as [Hkeep|Hdrop]; simpl.
  - destruct (decide (TargetColumn c = Column targetCol)); [reflexivity | exact IH].
  - apply dec_stable in Hdrop.
    destruct (decide (TargetColumn c = Column targetCol)); [congruence | exact IH].
Qed.

(** C3, as the code has it.  The source entries whose [TargetColumn] is
    empty (absent in the JSON) supply nothing to a target column whose name
    is not empty.  For every input the conversion finishes, and for every
    data row and every target column with a non-empty name, whatever the
    names of the other target columns are: the output cell is the cell that
    the source schema without those entries gives, and if the column is named
    only by such entries (that is, by no entry) the output cell is the empty
    string. *)
Theorem unmapped_entries_supply_nothing header rows sourceSchema targetSchema :
  (exists output,
     convertRecords (header :: rows) sourceSchema targetSchema = Done output)
  /\ (forall r sourceRow i targetCol,
        rows !! r = Some sourceRow ->
        targetSchema !! i = Some targetCol ->
        Column targetCol ≠ "" ->
        (exists v,
           cellAt (header :: rows) sourceSchema targetSchema (S r) i v
           /\ cellAt (header :: rows)
                (filter (fun c => TargetColumn c ≠ "") sourceSchema)
                targetSchema (S r) i v)
        /\ (Forall (fun c => TargetColumn c = "" \/ TargetColumn c ≠ Column targetCol)
              sourceSchema ->
            cellAt (header :: rows) sourceSchema targetSchema (S r) i "")).
Proof.
  split.
  - rewrite convertRecords_done. eexists. reflexivity.
  - intros r sourceRow i targetCol Hrow Hcol Hname.
    pose proof (cellAt_data header rows sourceSchema targetSchema r sourceRow i
                  targetCol Hrow Hcol) as Hout.
    split.
    + eexists. split; [exact Hout|].
      pose proof (cellAt_data header rows
                    (filter (fun c => TargetColumn c ≠ "") sourceSchema)
                    targetSchema r sourceRow i targetCol Hrow Hcol) as Hfiltered.
      unfold cellValue in Hfiltered.
      rewrite (scanSourceSchema_filter _ _ _ _ _ Hname) in Hfiltered.
      exact Hfiltered.
    + intros Honly.
      rewrite cellValue_no_match in Hout; [exact Hout|].
      eapply Forall_impl; [exact Honly|].
      intros c [Hempty|Hne]; [congruence | exact Hne].
Qed.

Lemma unmapped_entries_supply_nothing_witness :
  let header := ["legacy"; "name"] in
  let rows := [["old"; "Ann"]] in
  let sourceSchema := [col "legacy" "" None; col "name" "full_name" None] in
  let targetSchema := [col "" "" None; col "phone" "" None; col "full_name" "" None] in
  Column (col "phone" "" None) ≠ ""
  /\ cellAt (header :: rows) sourceSchema targetSchema 1 1 ""
  /\ Column (col "full_name" "" None) ≠ ""
  /\ exists v,
       cellAt (header :: rows) sourceSchema targetSchema 1 2 v
       /\ cellAt (header :: rows) [col "name" "full_name" None] targetSchema 1 2 v.
Proof.
  intros header rows sourceSchema targetSchema.
  destruct (unmapped_entries_supply_nothing header rows sourceSchema targetSchema)
    as (_ & Hcells).
  assert (Hphone : Column (col "phone" "" None) ≠ "") by differ.
  assert (Hname : Column (col "full_name" "" None) ≠ "") by differ.
  split; [exact Hphone|]. split.
  - apply (Hcells 0 ["old"; "Ann"] 1 (col "phone" "" None) eq_refl eq_refl Hphone).
    constructor; [left; reflexivity|].
    constructor; [right; differ | constructor].
  - split; [exact Hname|].
    exact (proj1 (Hcells 0 ["old"; "Ann"] 2 (col "full_name" "" None)
                    eq_refl eq_refl Hname)).
Defined.

(** When every target column has a non-empty name, the whole table is the
    table for the source schema without the entries that have no target
    column. *)
Lemma convertRecords_without_unmapped records sourceSchema targetSchema :
  Forall (fun targetCol => Column targetCol ≠ "") targetSchema ->
  convertRecords records
    (filter (fun c => TargetColumn c ≠ "") sourceSchema) targetSchema
  = convertRecords records sourceSchema targetSchema.
Proof.
  intros Hnames. destruct records as [|header rows]; [reflexivity|].
  rewrite !convertRecords_done. do 2 f_equal.
  apply map_ext_Forall, Forall_forall. intros sourceRow _.
  apply map_ext_Forall. eapply Forall_impl; [exact Hnames|].
  intros targetCol Hname. unfold cellValue.
  now rewrite scanSourceSchema_filter.
Qed.

(** C3, as stated, fails for a target column whose name is the empty
    string: the comparison [sourceCol.TargetColumn == targetCol.Column] holds
    for a source entry without target column, and the entry supplies the
    cell. *)
Lemma empty_target_name_counterexample :
  let header := ["legacy"; "name"] in
  let sourceRow := ["old"; "Ann"] in
  let sourceCol := col "legacy" "" None in
  let targetCol := col "" "" None in
  TargetColumn sourceCol = ""
  /\ [sourceRow] !! 0 = Some sourceRow
  /\ [targetCol] !! 0 = Some targetCol
  /\ Forall (fun c => TargetColumn c = "" \/ TargetColumn c ≠ Column targetCol)
       [sourceCol]
  /\ cellAt [header; sourceRow] [sourceCol] [targetCol] 1 0 "old"
  /\ ~ cellAt [header; sourceRow] [sourceCol] [targetCol] 1 0 "".
Proof.
  intros header sourceRow sourceCol targetCol.
  assert (Hcell : cellAt [header; sourceRow] [sourceCol] [targetCol] 1 0 "old").
  { exists [[""]; ["old"]], ["old"]. split; [vm_compute; reflexivity|].
    split; reflexivity. }
  split; [reflexivity|]. split; [reflexivity|]. split; [reflexivity|].
  split; [repeat constructor|].
  split; [exact Hcell|].
  intros Hbad. pose proof (cellAt_unique _ _ _ _ _ _ _ Hcell Hbad). discriminate.
Qed.

(** ** The precomputed index *)

(** A lookup in the index built from [sourceSchema] on top of [targetIndex]
    answers from [targetIndex] where it has the name, and as the scan of
    [sourceSchema] does where it has not. *)
Lemma lookupSourceSchema_build sourceColIndex sourceRow targetCol value sourceSchema :
  forall targetIndex : gmap string ColumnSchema,
    lookupSourceSchema sourceColIndex sourceRow targetCol
      (buildTargetIndex sourceSchema targetIndex) value
    = match targetIndex !! Column targetCol with
      | Some sourceCol => readSourceValue sourceColIndex sourceRow sourceCol value
      | None => scanSourceSchema sourceColIndex sourceRow targetCol sourceSchema value
      end.
Proof.
  induction sourceSchema as [|c rest IH]; intros targetIndex; simpl.
  - reflexivity.
  - rewrite IH.
    destruct (decide (TargetColumn c = Column targetCol)) as [Heq|Hne].
    + rewrite <- Heq.
      destruct (targetIndex !! TargetColumn c) as [sourceCol|] eqn:Hold.
      * now rewrite Hold.
      * now rewrite lookup_insert_eq.
    + destruct (targetIndex !! TargetColumn c); [reflexivity|].
      now rewrite lookup_insert_ne.
Qed.

Lemma lookupSourceSchema_scan sourceColIndex sourceRow targetCol sourceSchema value :
  lookupSourceSchema sourceColIndex sourceRow targetCol
    (buildTargetIndex sourceSchema ∅) value
  = scanSourceSchema sourceColIndex sourceRow targetCol sourceSchema value.
Proof. now rewrite lookupSourceSchema_build, lookup_empty. Qed.

Lemma convertRowIndexed_done sourceColIndex sourceSchema targetSchema sourceRow :
  convertRowIndexed sourceColIndex (buildTargetIndex sourceSchema ∅)
    targetSchema sourceRow
  = Done (map (cellValue sourceColIndex sourceSchema sourceRow) targetSchema).
Proof.
  unfold convertRowIndexed, make. apply range_store.
  intros i targetCol acc.
  rewrite lookupSourceSchema_scan, scanSourceSchema_done. reflexivity.
Qed.

Lemma convertRecordsIndexed_same records sourceSchema targetSchema :
  convertRecordsIndexed records sourceSchema targetSchema
  = convertRecords records sourceSchema targetSchema.
Proof.
  destruct records as [|header rows]; [reflexivity|].
  rewrite convertRecords_done.
  unfold convertRecordsIndexed. simpl.
  unfold make. rewrite (range_store Column) by reflexivity. simpl.
  rewrite Nat.sub_0_r.
  exact (forLoop_append _ _ (header :: rows)
           (convertRowIndexed_done _ sourceSchema targetSchema)
           rows [header] [map Column targetSchema] eq_refl).
Qed.

(** C9.  The index built once per call holds, for each target-column name,
    the first source entry in declared order, and the converter that looks
    the source entry up in it returns, on every text and every pair of
    schemas (and on every record list), exactly what the converter that scans
    the source schema for each cell returns. *)
Theorem indexed_scan_same_output ReadAll csvString sourceSchema targetSchema :
  (forall name sourceCol,
     firstMatch sourceSchema name sourceCol ->
     buildTargetIndex sourceSchema ∅ !! name = Some sourceCol)
  /\ (forall records,
        convertRecordsIndexed records sourceSchema targetSchema
        = convertRecords records sourceSchema targetSchema)
  /\ convertDataIndexed ReadAll csvString sourceSchema targetSchema
     = convertData ReadAll csvString sourceSchema targetSchema.
Proof.
  split; [|split].
  - intros name sourceCol (before & after & -> & Hbefore & Hmatch).
    assert (Hgen : forall targetIndex : gmap string ColumnSchema,
               targetIndex !! name = None ->
               buildTargetIndex (before ++ sourceCol :: after) targetIndex !! name
               = Some sourceCol).
    { induction Hbefore as [|c before Hne _ IH]; intros targetIndex Hfree; simpl.
      - rewrite Hmatch, Hfree.
        assert (Hkeep : forall (rest : list ColumnSchema)
                               (m : gmap string ColumnSchema),
                   m !! name = Some sourceCol ->
                   buildTargetIndex rest m !! name = Some sourceCol).
        { induction rest as [|c rest IHrest]; intros m Hm; simpl; [exact Hm|].
          apply IHrest. destruct (m !! TargetColumn c) eqn:Hc; [exact Hm|].
          rewrite lookup_insert_ne; [exact Hm|]. intros Heq. congruence. }
        apply Hkeep, lookup_insert_eq.
      - apply IH. destruct (targetIndex !! TargetColumn c); [exact Hfree|].
        now rewrite lookup_insert_ne. }
    apply Hgen, lookup_empty.
  - intros records. apply convertRecordsIndexed_same.
  - unfold convertDataIndexed, convertData.
    destruct (ReadCSVString ReadAll csvString); [|reflexivity].
    now rewrite convertRecordsIndexed_same.
Qed.

Lemma indexed_scan_same_output_witness :
  let first := col "a" "t" None in
  let second := col "b" "t" None in
  firstMatch [col "c" "u" None; first; second] "t" first
  /\ buildTargetIndex [col "c" "u" None; first; second] ∅ !! "t" = Some first.
Proof.
  intros first second.
  assert (Hfirst : firstMatch [col "c" "u" None; first; second] "t" first)
    by (apply firstMatch_tail; [differ | now apply firstMatch_head]).
  split; [exact Hfirst|].
  exact (proj1 (indexed_scan_same_output readUnquoted ""
                  [col "c" "u" None; first; second] []) "t" first Hfirst).
Defined.

(** ** Converting the output again *)

(** The cell an identity schema gives for the column [c], from a row that has
    one cell [cellOf name] per name of the header [names]. *)
Lemma cellValue_identity names identity (cellOf : string -> string) c :
  identitySchema identity ->
  map Column identity = names ->
  Forall (fun name => TrimSpace name = name) names ->
  c ∈ identity ->
  cellValue (buildSourceColIndex 0 names ∅) identity (map cellOf names) c
  = TrimSpace (cellOf (Column c)).
Proof.
  intros Hid Hnames Hfixed Hc.
  assert (Hself : TargetColumn c = Column c).
  { unfold identitySchema in Hid. rewrite Forall_forall in Hid. now apply Hid. }
  destruct (firstMatch_dec identity (Column c)) as [(c' & Hfirst)|Hnone].
  2:{ rewrite Forall_forall in Hnone. now destruct (Hnone c Hc). }
  assert (Hc' : TargetColumn c' = Column c' /\ ValuesMapping c' = None).
  { destruct Hfirst as (before & after & Hsplit & _ & _).
    unfold identitySchema in Hid. rewrite Forall_forall in Hid. apply Hid.
    rewrite Hsplit. apply elem_of_app. right. constructor. }
  destruct Hc' as [Hself' Hnomap].
  assert (Hsame : Column c' = Column c).
  { destruct Hfirst as (_ & _ & _ & _ & Hm). congruence. }
  assert (Hin : In (Column c) (map TrimSpace names)).
  { apply in_map_iff. exists (Column c).
    assert (Hmem : Column c ∈ names).
    { rewrite <- Hnames. apply list_elem_of_In, in_map. now apply list_elem_of_In. }
    split; [|now apply list_elem_of_In].
    rewrite Forall_forall in Hfixed. now apply Hfixed. }
  destruct (lastPosition_exists names (Column c) Hin) as [p Hlast].
  pose proof (buildSourceColIndex_last 0 names ∅ (Column c) p Hlast) as Hidx.
  simpl in Hidx. rewrite <- Hsame in Hidx.
  destruct Hlast as (before & h & after & Hsplit & Hp & Hh & _).
  assert (Hhfixed : h = Column c).
  { rewrite <- Hh. symmetry. rewrite Forall_forall in Hfixed. apply Hfixed.
    rewrite Hsplit. apply elem_of_app. right. constructor. }
  assert (Hcell : map cellOf names !! p = Some (cellOf (Column c))).
  { rewrite lookup_map, Hsplit, <- Hp, list_lookup_middle by reflexivity.
    simpl. now rewrite Hhfixed. }
  rewrite (cellValue_read _ _ _ _ _ _ _ Hfirst Hidx Hcell).
  unfold convertValue. rewrite Hnomap.
  destruct (decide (TrimSpace (cellOf (Column c)) ≠ "")) as [|Hblank]; [reflexivity|].
  apply dec_stable in Hblank. now rewrite Hblank.
Qed.

(** C8, as the code has it.  When no column name of the target schema has
    white space around it, converting the output of a conversion again, with
    an identity schema of the target schema's column names as source and as
    target schema, finishes and returns that output with every cell trimmed. *)
Theorem identity_round_trip records sourceSchema targetSchema identity output :
  convertRecords records sourceSchema targetSchema = Done output ->
  identitySchema identity ->
  map Column identity = map Column targetSchema ->
  Forall (fun c => TrimSpace (Column c) = Column c) targetSchema ->
  convertRecords output identity identity = Done (map (map TrimSpace) output).
Proof.
  intros Hout Hid Hnames Hfixed.
  destruct records as [|header rows]; [discriminate|].
  rewrite convertRecords_done in Hout. injection Hout as <-.
  rewrite convertRecords_done. simpl.
  assert (Hfixed' : Forall (fun name => TrimSpace name = name) (map Column targetSchema)).
  { clear -Hfixed. induction Hfixed; simpl; constructor; assumption. }
  f_equal. f_equal.
  - rewrite Hnames. clear -Hfixed'.
    induction Hfixed' as [|name names Hname _ IH]; simpl; [reflexivity|].
    now rewrite Hname, <- IH.
  - rewrite !map_map. apply map_ext_Forall, Forall_forall. intros sourceRow _.
    set (cellOf := fun name =>
           cellValue (buildSourceColIndex 0 header ∅) sourceSchema sourceRow
             (col name "" None)).
    assert (Hrow : map (cellValue (buildSourceColIndex 0 header ∅) sourceSchema sourceRow)
                     targetSchema
                   = map cellOf (map Column targetSchema)).
    { rewrite map_map. apply map_ext_Forall, Forall_forall. intros targetCol _.
      now apply cellValue_same_name. }
    rewrite Hrow.
    transitivity (map (fun c => TrimSpace (cellOf (Column c))) identity).
    + apply map_ext_Forall, Forall_forall. intros c Hc.
      now apply cellValue_identity.
    + rewrite <- Hnames, !map_map. reflexivity.
Qed.

Lemma identity_round_trip_witness :
  let records := [["id"; "status"]; [" 7"; "Y"]; ["8"; " "]] in
  let sourceSchema :=
    [col "status" "state" (Some (<["Y":=" yes "]> ∅)); col "id" "key" None] in
  let targetSchema := [col "key" "" None; col "state" "" None] in
  let identity := [col "key" "key" None; col "state" "state" None] in
  let output := [["key"; "state"]; ["7"; " yes "]; ["8"; ""]] in
  convertRecords records sourceSchema targetSchema = Done output
  /\ identitySchema identity
  /\ map Column identity = map Column targetSchema
  /\ Forall (fun c => TrimSpace (Column c) = Column c) targetSchema
  /\ convertRecords output identity identity
     = Done [["key"; "state"]; ["7"; "yes"]; ["8"; ""]].
Proof.
  intros records sourceSchema targetSchema identity output.
  assert (Hout : convertRecords records sourceSchema targetSchema = Done output)
    by (vm_compute; reflexivity).
  assert (Hid : identitySchema identity) by (repeat constructor).
  assert (Hfixed : Forall (fun c => TrimSpace (Column c) = Column c) targetSchema)
    by (repeat constructor; vm_compute; reflexivity).
  split; [exact Hout|]. split; [exact Hid|]. split; [reflexivity|].
  split; [exact Hfixed|].
  exact (identity_round_trip records sourceSchema targetSchema identity output
           Hout Hid eq_refl Hfixed).
Defined.

(** C8, as stated, fails when a target column name has white space around
    it: the header of the output is trimmed before it enters the
    header-position map, the identity schema's column name is looked up as it
    is, the lookup finds nothing, and the cell ["7"] comes back empty. *)
Lemma identity_round_trip_counterexample :
  let records := [["id"; "name"]; ["7"; "Ann"]] in
  let sourceSchema := [col "id" " key" None] in
  let targetSchema := [col " key" "" None] in
  let identity := [col " key" " key" None] in
  let output := [[" key"]; ["7"]] in
  let again := [[" key"]; [""]] in
  convertRecords records sourceSchema targetSchema = Done output
  /\ identitySchema identity
  /\ map Column identity = map Column targetSchema
  /\ convertRecords output identity identity = Done again
  /\ again ≠ output
  /\ again ≠ map (map TrimSpace) output
  /\ map (map TrimSpace) again ≠ map (map TrimSpace) output.
Proof.
  intros records sourceSchema targetSchema identity output again.
  split; [vm_compute; reflexivity|].
  split; [repeat constructor|].
  split; [reflexivity|].
  split; [vm_compute; reflexivity|].
  split; [differ|]. split; differ.
Qed.

(** ** Strings *)

Lemma string_app_cons (c : ascii) (s t : string) :
  String c s ++ t = String c (s ++ t).
Proof. reflexivity. Qed.

Lemma string_app_nil_r (s : string) : s ++ "" = s.
Proof.
  induction s as [|c s IH]; [reflexivity|].
  now rewrite string_app_cons, IH.
Qed.

Lemma string_app_assoc (s1 s2 s3 : string) : (s1 ++ s2) ++ s3 = s1 ++ s2 ++ s3.
Proof.
  induction s1 as [|c s1 IH]; [reflexivity|].
  now rewrite !string_app_cons, IH.
Qed.

Lemma string_length_app (s1 s2 : string) :
  String.length (s1 ++ s2) = String.length s1 + String.length s2.
Proof.
  induction s1 as [|c s1 IH]; [reflexivity|].
  rewrite string_app_cons. simpl. now rewrite IH.
Qed.

Lemma rev_app_append (s1 s2 : string) : String.rev_app s1 s2 = String.rev s1 ++ s2.
Proof.
  unfold String.rev. revert s2.
  induction s1 as [|c s1 IH]; intros s2; simpl; [reflexivity|].
  rewrite (IH (String c "")), IH, string_app_assoc. reflexivity.
Qed.

Lemma rev_cons (c : ascii) (s : string) :
  String.rev (String c s) = String.rev s ++ String c "".
Proof. unfold String.rev at 1. simpl. apply rev_app_append. Qed.

Lemma rev_append (s1 s2 : string) :
  String.rev (s1 ++ s2) = String.rev s2 ++ String.rev s1.
Proof.
  induction s1 as [|c s1 IH].
  - change (String.rev "") with "". now rewrite string_app_nil_r.
  - now rewrite string_app_cons, !rev_cons, IH, string_app_assoc.
Qed.

Lemma rev_involutive (s : string) : String.rev (String.rev s) = s.
Proof.
  induction s as [|c s IH]; [reflexivity|].
  now rewrite rev_cons, rev_append, IH.
Qed.

Lemma rev_length (s : string) : String.length (String.rev s) = String.length s.
Proof.
  induction s as [|c s IH]; [reflexivity|].
  rewrite rev_cons, string_length_app, IH. simpl. lia.
Qed.

(** ** White space at the ends of a string *)

Lemma trimFront_step backward s :
  trimFront backward s
  = match spaceWidth backward s with
    | 0 => s
    | S k => trimFront backward (dropBytes (S k) s)
    end.
Proof.
  destruct s as [|b1 [|b2 [|b3 s3]]]; simpl; try reflexivity.
  - destruct (asciiSpace b1); reflexivity.
  - destruct (asciiSpace b1); [reflexivity|].
    destruct (if backward then isSpace2 b2 b1 else isSpace2 b1 b2); reflexivity.
  - destruct (asciiSpace b1); [reflexivity|].
    destruct (if backward then isSpace2 b2 b1 else isSpace2 b1 b2); [reflexivity|].
    destruct (if backward then isSpace3 b3 b2 b1 else isSpace3 b1 b2 b3); reflexivity.
Qed.

Lemma spaceWidth_length backward s :
  spaceWidth backward s <= String.length s.
Proof.
  destruct s as [|b1 [|b2 [|b3 s3]]]; simpl; try lia.
  - destruct (asciiSpace b1); lia.
  - destruct (asciiSpace b1); [lia|].
    destruct (if backward then isSpace2 b2 b1 else isSpace2 b1 b2); lia.
  - destruct (asciiSpace b1); [lia|].
    destruct (if backward then isSpace2 b2 b1 else isSpace2 b1 b2); [lia|].
    destruct (if backward then isSpace3 b3 b2 b1 else isSpace3 b1 b2 b3); lia.
Qed.

Lemma dropBytes_length n s :
  String.length (dropBytes n s) = String.length s - n.
Proof.
  revert s. induction n as [|n IH]; intros [|c s]; simpl; try lia. apply IH.
Qed.

Lemma take_drop_bytes n s : takeBytes n s ++ dropBytes n s = s.
Proof.
  revert s. induction n as [|n IH]; intros [|c s]; try reflexivity.
  simpl. now rewrite string_app_cons, IH.
Qed.

(** A string with a white-space rune at its front still has it there when
    bytes are added at its end. *)
Lemma spaceWidth_app backward s t :
  spaceWidth backward s ≠ 0 ->
  spaceWidth backward (s ++ t) = spaceWidth backward s.
Proof.
  destruct s as [|b1 [|b2 [|b3 s3]]]; rewrite ?string_app_cons; simpl;
    try congruence.
  - destruct (asciiSpace b1); congruence.
  - destruct (asciiSpace b1); [reflexivity|].
    destruct (if backward then isSpace2 b2 b1 else isSpace2 b1 b2); congruence.
Qed.

(** Strong induction on the length of a string. *)
Lemma string_length_ind (P : string -> Prop) :
  (forall s, (forall t, String.length t < String.length s -> P t) -> P s) ->
  forall s, P s.
Proof.
  intros Hstep s.
  assert (H : forall n t, String.length t < n -> P t).
  { induction n as [|n IH]; intros t Ht; [lia|].
    apply Hstep. intros u Hu. apply IH. lia. }
  apply (H (S (String.length s))). lia.
Qed.

(** What [trimFront] returns has no white space at its front, is an end
    part of the string, and is left alone by a second trimming. *)
Lemma trimFront_spaceWidth backward s :
  spaceWidth backward (trimFront backward s) = 0.
Proof.
  induction s as [s IH] using string_length_ind.
  rewrite trimFront_step.
  destruct (spaceWidth backward s) as [|k] eqn:Hw; [exact Hw|].
  apply IH. rewrite dropBytes_length.
  pose proof (spaceWidth_length backward s). lia.
Qed.

Lemma trimFront_suffix backward s :
  exists p, s = p ++ trimFront backward s.
Proof.
  induction s as [s IH] using string_length_ind.
  rewrite trimFront_step.
  destruct (spaceWidth backward s) as [|k] eqn:Hw; [now exists ""|].
  destruct (IH (dropBytes (S k) s)) as [p Hp].
  { rewrite dropBytes_length. pose proof (spaceWidth_length backward s). lia. }
  exists (takeBytes (S k) s ++ p).
  rewrite string_app_assoc, <- Hp. symmetry. apply take_drop_bytes.
Qed.

Lemma trimFront_fixed backward s :
  spaceWidth backward s = 0 -> trimFront backward s = s.
Proof. intros H. now rewrite trimFront_step, H. Qed.

Lemma TrimSpace_fixed s :
  spaceWidth false s = 0 -> spaceWidth true (String.rev s) = 0 -> TrimSpace s = s.
Proof.
  intros Hfront Hback. unfold TrimSpace.
  now rewrite (trimFront_fixed false s Hfront), (trimFront_fixed true _ Hback),
    rev_involutive.
Qed.

(** What [TrimSpace] returns has white space at neither end. *)
Lemma TrimSpace_ends s :
  spaceWidth false (TrimSpace s) = 0
  /\ spaceWidth true (String.rev (TrimSpace s)) = 0.
Proof.
  unfold TrimSpace.
  set (t := trimFront false s). set (u := trimFront true (String.rev t)).
  rewrite rev_involutive. split; [|apply trimFront_spaceWidth].
  destruct (trimFront_suffix true (String.rev t)) as [p Hp]. fold u in Hp.
  assert (Ht : t = String.rev u ++ String.rev p).
  { rewrite <- rev_append, <- Hp. symmetry. apply rev_involutive. }
  destruct (Nat.eq_dec (spaceWidth false (String.rev u)) 0) as [|Hne]; [assumption|].
  pose proof (spaceWidth_app false (String.rev u) (String.rev p) Hne) as Happ.
  rewrite <- Ht in Happ. unfold t in Happ.
  rewrite trimFront_spaceWidth in Happ. congruence.
Qed.

Lemma TrimSpace_idempotent s : TrimSpace (TrimSpace s) = TrimSpace s.
Proof. destruct (TrimSpace_ends s). now apply TrimSpace_fixed. Qed.

(** ** More on the header-position map *)

(** X1.  The header-position map is exact: it has a position for a name
    exactly when that position is the last one of the header whose trimmed
    cell is the name (so every position in it is inside the header), and it
    has no position for a name exactly when no header cell trims to it. *)
Theorem sourceColIndex_exact header name :
  (forall p,
     buildSourceColIndex 0 header ∅ !! name = Some p <-> lastPosition header name p)
  /\ (buildSourceColIndex 0 header ∅ !! name = None
      <-> Forall (fun h => TrimSpace h ≠ name) header).
Proof.
  assert (Hcases : (exists p, lastPosition header name p)
                   \/ Forall (fun h => TrimSpace h ≠ name) header).
  { destruct (in_dec String.string_dec name (map TrimSpace header)) as [Hin|Hout].
    - left. now apply lastPosition_exists.
    - right. apply Forall_forall. intros h Hh Heq. apply Hout.
      rewrite <- Heq. apply in_map. now apply list_elem_of_In. }
  split.
  - intros p. split.
    + intros Hlook. destruct Hcases as [[p' Hlast]|Hnone].
      * pose proof (buildSourceColIndex_last 0 header ∅ name p' Hlast) as Hp'.
        simpl in Hp'. congruence.
      * rewrite (buildSourceColIndex_absent _ _ Hnone) in Hlook. discriminate.
    + intros Hlast. exact (buildSourceColIndex_last 0 header ∅ name p Hlast).
  - split.
    + intros Hlook. destruct Hcases as [[p Hlast]|Hnone]; [|exact Hnone].
      pose proof (buildSourceColIndex_last 0 header ∅ name p Hlast) as Hp.
      simpl in Hp. congruence.
    + apply buildSourceColIndex_absent.
Qed.

Lemma lastPosition_lt header name p :
  lastPosition header name p -> p < length header.
Proof.
  intros (before & h & after & -> & <- & _). rewrite length_app. simpl. lia.
Qed.

Lemma sourceColIndex_lt header name p :
  buildSourceColIndex 0 header ∅ !! name = Some p -> p < length header.
Proof.
  intros H. apply (proj1 (sourceColIndex_exact header name)) in H.
  exact (lastPosition_lt _ _ _ H).
Qed.

(** ** Rows are converted one by one *)

(** X2.  The data rows are converted independently and in order: the
    output for the rows [rows1 ++ rows2] under a header is the output for
    [rows1] followed by the data rows of the output for [rows2]. *)
Theorem convertRecords_rows_app header rows1 rows2 sourceSchema targetSchema :
  exists out1 out2,
    convertRecords (header :: rows1) sourceSchema targetSchema
    = Done (map Column targetSchema :: out1)
    /\ convertRecords (header :: rows2) sourceSchema targetSchema
       = Done (map Column targetSchema :: out2)
    /\ convertRecords (header :: rows1 ++ rows2) sourceSchema targetSchema
       = Done (map Column targetSchema :: out1 ++ out2).
Proof.
  rewrite !convertRecords_done. eexists _, _.
  split; [reflexivity|]. split; [reflexivity|].
  now rewrite map_app.
Qed.

(** ** Where an output cell comes from *)

(** X3.  The converter invents no data: every cell of an output data row
    is the empty string, or the trimmed text of a cell of the same input row,
    or the value that the values mapping of a source entry naming the target
    column gives for the trimmed text of such a cell. *)
Theorem output_cell_provenance header rows sourceSchema targetSchema
    r sourceRow i targetCol v :
  rows !! r = Some sourceRow ->
  targetSchema !! i = Some targetCol ->
  cellAt (header :: rows) sourceSchema targetSchema (S r) i v ->
  v = ""
  \/ (exists cell, cell ∈ sourceRow /\ v = TrimSpace cell)
  \/ (exists sourceCol mapping cell,
        sourceCol ∈ sourceSchema
        /\ TargetColumn sourceCol = Column targetCol
        /\ ValuesMapping sourceCol = Some mapping
        /\ cell ∈ sourceRow
        /\ mapping !! TrimSpace cell = Some v).
Proof.
  intros Hrow Hcol Hcell.
  pose proof (cellAt_data header rows sourceSchema targetSchema r sourceRow i
                targetCol Hrow Hcol) as Hdata.
  rewrite (cellAt_unique _ _ _ _ _ _ _ Hcell Hdata). clear Hcell Hdata.
  set (idx := buildSourceColIndex 0 header ∅).
  destruct (firstMatch_dec sourceSchema (Column targetCol)) as [[sourceCol Hfirst]|Hnone].
  2:{ left. now apply cellValue_no_match. }
  destruct (idx !! Column sourceCol) as [colIdx|] eqn:Hidx.
  2:{ left. exact (cellValue_unindexed _ _ _ _ _ Hfirst Hidx). }
  destruct (sourceRow !! colIdx) as [cell|] eqn:Hread.
  2:{ left. apply (cellValue_short _ _ _ _ _ _ Hfirst Hidx).
      now apply lookup_ge_None. }
  rewrite (cellValue_read _ _ _ _ _ _ _ Hfirst Hidx Hread).
  assert (Hmem : cell ∈ sourceRow) by (eapply list_elem_of_lookup_2; eassumption).
  destruct (decide (TrimSpace cell ≠ "")); [|now left].
  unfold convertValue.
  destruct (ValuesMapping sourceCol) as [mapping|] eqn:Hmap; [|right; left; eauto].
  destruct (mapping !! TrimSpace cell) as [mapped|] eqn:Hkey; [|right; left; eauto].
  right. right. exists sourceCol, mapping, cell.
  destruct Hfirst as (before & after & -> & _ & Hmatch).
  repeat split; try assumption.
  apply elem_of_app. right. constructor.
Qed.

Lemma output_cell_provenance_witness :
  let header := ["status"; "name"] in
  let sourceRow := ["Y"; " Ann "] in
  let sourceSchema :=
    [col "status" "is_active" (Some (<["Y":="true"]> ∅)); col "name" "full_name" None] in
  let targetSchema := [col "full_name" "" None; col "is_active" "" None] in
  cellAt [header; sourceRow] sourceSchema targetSchema 1 1 "true"
  /\ ("true" = ""
      \/ (exists cell, cell ∈ sourceRow /\ "true" = TrimSpace cell)
      \/ (exists sourceCol mapping cell,
            sourceCol ∈ sourceSchema
            /\ TargetColumn sourceCol = "is_active"
            /\ ValuesMapping sourceCol = Some mapping
            /\ cell ∈ sourceRow
            /\ mapping !! TrimSpace cell = Some "true")).
Proof.
  intros header sourceRow sourceSchema targetSchema.
  assert (Hcell : cellAt [header; sourceRow] sourceSchema targetSchema 1 1 "true").
  { exists [["full_name"; "is_active"]; ["Ann"; "true"]], ["Ann"; "true"].
    split; [vm_compute; reflexivity|]. split; reflexivity. }
  split; [exact Hcell|].
  exact (output_cell_provenance header [sourceRow] sourceSchema targetSchema
           0 sourceRow 1 (col "is_active" "" None) "true" eq_refl eq_refl Hcell).
Defined.

(** ** Which parts of the input matter *)

(** Two source schemas that the scan cannot tell apart give the same
    output. *)
Lemma convertRecords_scan_ext records sourceSchema sourceSchema' targetSchema :
  (forall sourceColIndex sourceRow targetCol value,
     scanSourceSchema sourceColIndex sourceRow targetCol sourceSchema value
     = scanSourceSchema sourceColIndex sourceRow targetCol sourceSchema' value) ->
  convertRecords records sourceSchema targetSchema
  = convertRecords records sourceSchema' targetSchema.
Proof.
  intros Hscan. destruct records as [|header rows]; [reflexivity|].
  rewrite !convertRecords_done. do 2 f_equal.
  apply map_ext_Forall, Forall_forall. intros sourceRow _.
  apply map_ext_Forall, Forall_forall. intros targetCol _.
  unfold cellValue. now rewrite Hscan.
Qed.

(** X4.  Only the first source entry that names a target column counts:
    an entry that stands after another entry with the same [TargetColumn] can
    be deleted without changing the output.  In particular there is no
    fall-back to a later entry when the first one finds no cell. *)
Theorem later_entry_is_ignored records before sourceCol between later after
    targetSchema :
  TargetColumn later = TargetColumn sourceCol ->
  convertRecords records
    (before ++ sourceCol :: between ++ later :: after)%list targetSchema
  = convertRecords records (before ++ sourceCol :: between ++ after)%list targetSchema.
Proof.
  intros Hsame. apply convertRecords_scan_ext.
  intros sourceColIndex sourceRow targetCol value.
  induction before as [|c before IH]; simpl.
  - destruct (decide (TargetColumn sourceCol = Column targetCol)) as [|Hne];
      [reflexivity|].
    induction between as [|c between IH]; simpl.
    + destruct (decide (TargetColumn later = Column targetCol)); [congruence|].
      reflexivity.
    + destruct (decide (TargetColumn c = Column targetCol)); [reflexivity | exact IH].
  - destruct (decide (TargetColumn c = Column targetCol)); [reflexivity | exact IH].
Qed.

Lemma later_entry_is_ignored_witness :
  let records := [["id"; "code"]; ["7"]] in
  let first := col "code" "key" None in
  let later := col "id" "key" None in
  TargetColumn later = TargetColumn first
  /\ convertRecords records [first; later] [col "key" "" None]
     = convertRecords records [first] [col "key" "" None]
  /\ convertRecords records [first; later] [col "key" "" None]
     = Done [["key"]; [""]].
Proof.
  intros records first later.
  split; [reflexivity|].
  split; [|vm_compute; reflexivity].
  exact (later_entry_is_ignored records [] first [] later [] [col "key" "" None]
           eq_refl).
Defined.

(** X5.  The cells of a data row that lie beyond the width of the header
    are never read: cutting every data row to the header's length leaves the
    output unchanged. *)
Theorem cells_beyond_header_are_ignored header rows sourceSchema targetSchema :
  convertRecords (header :: map (take (length header)) rows)
    sourceSchema targetSchema
  = convertRecords (header :: rows) sourceSchema targetSchema.
Proof.
  rewrite !convertRecords_done. f_equal. f_equal.
  rewrite map_map. apply map_ext_Forall, Forall_forall. intros sourceRow _.
  apply map_ext_Forall, Forall_forall. intros targetCol _.
  unfold cellValue. f_equal.
  induction sourceSchema as [|c rest IH]; simpl; [reflexivity|].
  destruct (decide (TargetColumn c = Column targetCol)); [|exact IH].
  unfold readSourceValue.
  destruct (buildSourceColIndex 0 header ∅ !! Column c) as [colIdx|] eqn:Hidx;
    [|reflexivity].
  apply sourceColIndex_lt in Hidx.
  unfold index. rewrite length_take, (lookup_take_lt _ _ _ Hidx).
  destruct (decide (colIdx < length header `min` length sourceRow));
    destruct (decide (colIdx < length sourceRow)) as [Hin|]; try lia;
    [|reflexivity].
  destruct (lookup_lt_is_Some_2 sourceRow colIdx Hin) as [cell ->]. reflexivity.
Qed.

Lemma readSourceValue_trimmed sourceColIndex sourceRow sourceCol value :
  readSourceValue sourceColIndex (map TrimSpace sourceRow) sourceCol value
  = readSourceValue sourceColIndex sourceRow sourceCol value.
Proof.
  unfold readSourceValue.
  destruct (sourceColIndex !! Column sourceCol) as [colIdx|]; [|reflexivity].
  rewrite length_map.
  destruct (decide (colIdx < length sourceRow)); [|reflexivity].
  unfold index. rewrite lookup_map.
  destruct (sourceRow !! colIdx) as [cell|]; simpl.
  - now rewrite TrimSpace_idempotent.
  - now rewrite length_map.
Qed.

Lemma buildSourceColIndex_trimmed i header sourceColIndex :
  buildSourceColIndex i (map TrimSpace header) sourceColIndex
  = buildSourceColIndex i header sourceColIndex.
Proof.
  revert i sourceColIndex.
  induction header as [|h rest IH]; intros i sourceColIndex; simpl; [reflexivity|].
  now rewrite TrimSpace_idempotent, IH.
Qed.

(** X6.  White space around the cells of the input never matters, in the
    header or in the data: trimming every cell of the records before the
    conversion leaves the result unchanged. *)
Theorem input_whitespace_is_ignored records sourceSchema targetSchema :
  convertRecords (map (map TrimSpace) records) sourceSchema targetSchema
  = convertRecords records sourceSchema targetSchema.
Proof.
  destruct records as [|header rows]; [reflexivity|].
  simpl. rewrite !convertRecords_done, buildSourceColIndex_trimmed.
  f_equal. f_equal.
  rewrite map_map. apply map_ext_Forall, Forall_forall. intros sourceRow _.
  apply map_ext_Forall, Forall_forall. intros targetCol _.
  unfold cellValue. f_equal.
  induction sourceSchema as [|c rest IH]; simpl; [reflexivity|].
  destruct (decide (TargetColumn c = Column targetCol)); [|exact IH].
  apply readSourceValue_trimmed.
Qed.

(** X7.  Of the target schema only the column names are used, and of a
    source entry only its column name, target column and values mapping: the
    [Values] lists, and the target entries' [TargetColumn] and
    [ValuesMapping], never change the output. *)
Theorem unused_fields_are_ignored records sourceSchema sourceSchema'
    targetSchema targetSchema' :
  map Column targetSchema' = map Column targetSchema ->
  map (fun c => (Column c, TargetColumn c, ValuesMapping c)) sourceSchema'
  = map (fun c => (Column c, TargetColumn c, ValuesMapping c)) sourceSchema ->
  convertRecords records sourceSchema' targetSchema'
  = convertRecords records sourceSchema targetSchema.
Proof.
  intros Htarget Hsource.
  transitivity (convertRecords records sourceSchema targetSchema').
  - apply convertRecords_scan_ext.
    intros sourceColIndex sourceRow targetCol value.
    revert sourceSchema Hsource.
    induction sourceSchema' as [|c' rest' IH]; intros [|c rest] Hsource;
      try discriminate; [reflexivity|].
    simpl in Hsource. injection Hsource as Hcol Htc Hvm Hrest. simpl.
    rewrite Htc, (IH rest Hrest).
    destruct (decide (TargetColumn c = Column targetCol)); [|reflexivity].
    unfold readSourceValue, convertValue. now rewrite Hcol, Hvm.
  - destruct records as [|header rows]; [reflexivity|].
    rewrite !convertRecords_done. rewrite Htarget. f_equal. f_equal.
    apply map_ext_Forall, Forall_forall. intros sourceRow _.
    set (cellOf := fun name =>
           cellValue (buildSourceColIndex 0 header ∅) sourceSchema sourceRow
             (col name "" None)).
    transitivity (map cellOf (map Column targetSchema')).
    + rewrite map_map. apply map_ext_Forall, Forall_forall. intros targetCol _.
      now apply cellValue_same_name.
    + rewrite Htarget, map_map. apply map_ext_Forall, Forall_forall.
      intros targetCol _. now apply cellValue_same_name.
Qed.

Lemma unused_fields_are_ignored_witness :
  let records := [["status"]; ["Y"]; ["maybe"]] in
  let mapping : gmap string string := <["Y":="true"]> ∅ in
  let sourceSchema :=
    [{| Column := "status"; TargetColumn := "state"; Values := ["Y"; "N"];
        ValuesMapping := Some mapping |}] in
  let sourceSchema' := [col "status" "state" (Some mapping)] in
  let targetSchema :=
    [{| Column := "state"; TargetColumn := ""; Values := ["true"; "false"];
        ValuesMapping := None |}] in
  let targetSchema' := [col "state" "other" (Some (<["true":="1"]> ∅))] in
  convertRecords records sourceSchema' targetSchema'
  = convertRecords records sourceSchema targetSchema
  /\ convertRecords records sourceSchema targetSchema
     = Done [["state"]; ["true"]; ["maybe"]].
Proof.
  intros records mapping sourceSchema sourceSchema' targetSchema targetSchema'.
  split; [|vm_compute; reflexivity].
  exact (unused_fields_are_ignored records sourceSchema sourceSchema'
           targetSchema targetSchema' eq_refl eq_refl).
Defined.

(** X8.  A cell that passes without a values mapping has no white space
    around it: if the first source entry naming the target column, when there
    is one, has no values mapping, trimming the output cell changes
    nothing. *)
Theorem unmapped_cell_is_trimmed header rows sourceSchema targetSchema
    r sourceRow i targetCol v :
  rows !! r = Some sourceRow ->
  targetSchema !! i = Some targetCol ->
  (forall sourceCol,
     firstMatch sourceSchema (Column targetCol) sourceCol ->
     ValuesMapping sourceCol = None) ->
  cellAt (header :: rows) sourceSchema targetSchema (S r) i v ->
  TrimSpace v = v.
Proof.
  intros Hrow Hcol Hnomap Hcell.
  pose proof (cellAt_data header rows sourceSchema targetSchema r sourceRow i
                targetCol Hrow Hcol) as Hdata.
  rewrite (cellAt_unique _ _ _ _ _ _ _ Hcell Hdata). clear Hcell Hdata.
  set (idx := buildSourceColIndex 0 header ∅).
  destruct (firstMatch_dec sourceSchema (Column targetCol)) as [[sourceCol Hfirst]|Hnone].
  2:{ now rewrite cellValue_no_match. }
  destruct (idx !! Column sourceCol) as [colIdx|] eqn:Hidx.
  2:{ now rewrite (cellValue_unindexed _ _ _ _ _ Hfirst Hidx). }
  destruct (sourceRow !! colIdx) as [cell|] eqn:Hread.
  2:{ rewrite (cellValue_short _ _ _ _ _ _ Hfirst Hidx); [reflexivity|].
      now apply lookup_ge_None. }
  rewrite (cellValue_read _ _ _ _ _ _ _ Hfirst Hidx Hread).
  destruct (decide (TrimSpace cell ≠ "")); [|reflexivity].
  unfold convertValue. rewrite (Hnomap sourceCol Hfirst).
  apply TrimSpace_idempotent.
Qed.

Lemma unmapped_cell_is_trimmed_witness :
  let header := ["name"] in
  let sourceRow := ["  Ann Lee  "] in
  let sourceSchema := [col "name" "full_name" None] in
  let targetSchema := [col "full_name" "" None] in
  cellAt [header; sourceRow] sourceSchema targetSchema 1 0 "Ann Lee"
  /\ TrimSpace "Ann Lee" = "Ann Lee".
Proof.
  intros header sourceRow sourceSchema targetSchema.
  assert (Hcell : cellAt [header; sourceRow] sourceSchema targetSchema 1 0 "Ann Lee").
  { exists [["full_name"]; ["Ann Lee"]], ["Ann Lee"].
    split; [vm_compute; reflexivity|]. split; reflexivity. }
  split; [exact Hcell|].
  apply (unmapped_cell_is_trimmed header [sourceRow] sourceSchema targetSchema
           0 sourceRow 0 (col "full_name" "" None) "Ann Lee" eq_refl eq_refl);
    [|exact Hcell].
  intros sourceCol (before & after & Hsplit & _ & _).
  destruct before as [|c [|c' before]]; simpl in Hsplit.
  - injection Hsplit as <- _. reflexivity.
  - injection Hsplit as _ Hrest. discriminate.
  - injection Hsplit as _ Hrest. discriminate.
Defined.

Lemma sourceColIndex_exact_witness :
  let header := ["a"; "b"; " a "] in
  buildSourceColIndex 0 header ∅ !! "a" = Some 2
  /\ lastPosition header "a" 2
  /\ Forall (fun h => TrimSpace h ≠ "c") header
  /\ buildSourceColIndex 0 header ∅ !! "c" = None.
Proof.
  intros header.
  assert (Hlook : buildSourceColIndex 0 header ∅ !! "a" = Some 2)
    by (vm_compute; reflexivity).
  assert (Hnone : Forall (fun h => TrimSpace h ≠ "c") header)
    by (repeat constructor; differ).
  split; [exact Hlook|].
  split; [exact (proj1 (proj1 (sourceColIndex_exact header "a") 2) Hlook)|].
  split; [exact Hnone|].
  exact (proj2 (proj2 (sourceColIndex_exact header "c")) Hnone).
Defined.

(** ** When the conversion fails *)

(** X9.  [convertData] returns an error in exactly three cases, each with
    its own message: the text is empty; the reader fails, and then the
    reader's message comes with the prefix "failed to parse CSV: " twice,
    once from [ReadCSVString] and once from [convertData]; or the reader
    finds no record. *)
Theorem convertData_errors ReadAll csvString sourceSchema targetSchema e :
  convertData ReadAll csvString sourceSchema targetSchema = Done (Err e)
  <-> (csvString = ""
       /\ e = errorString "failed to parse CSV: no CSV data to convert")
      \/ (csvString ≠ ""
          /\ exists err,
               ReadAll csvString = Err err
               /\ e = errorString
                        ("failed to parse CSV: failed to parse CSV: " ++ Error err))
      \/ (csvString ≠ ""
          /\ ReadAll csvString = Ok []
          /\ e = errorString "failed to parse CSV: CSV has no data").
Proof.
  unfold convertData, ReadCSVString.
  destruct (decide (String.length csvString = 0)) as [Hlen|Hlen].
  - apply length_zero_empty in Hlen. subst csvString. split.
    + intros [= <-]. left. split; reflexivity.
    + intros [[_ ->]|[[Hne _]|[Hne _]]]; [reflexivity | now destruct Hne..].
  - assert (Hne : csvString ≠ "") by (intros ->; now apply Hlen).
    destruct (ReadAll csvString) as [[|header rows]|err] eqn:Hread; simpl.
    + split.
      * intros [= <-]. right. right. repeat split; assumption.
      * intros [[Hemp _]|[(_ & err & Herr & _)|(_ & _ & ->)]];
          [contradiction | discriminate | reflexivity].
    + rewrite convertRecords_done. simpl. split; [discriminate|].
      intros [[Hemp _]|[(_ & err & Herr & _)|(_ & Hnil & _)]];
        [contradiction | discriminate | discriminate].
    + split.
      * intros [= <-]. right. left. split; [assumption|]. now exists err.
      * intros [[Hemp _]|[(_ & err' & [= <-] & ->)|(_ & Hnil & _)]];
          [contradiction | reflexivity | discriminate].
Qed.

Lemma convertData_errors_witness :
  convertData readUnquoted (line "a,b" ++ line "1") [] []
  = Done (Err (errorString
                 "failed to parse CSV: failed to parse CSV: wrong number of fields")).
Proof.
  apply (proj2 (convertData_errors readUnquoted (line "a,b" ++ line "1") [] []
                  (errorString
                     "failed to parse CSV: failed to parse CSV: wrong number of fields"))).
  right. left. split; [discriminate|].
  exists (errorString "wrong number of fields"). split; vm_compute; reflexivity.
Defined.

(** ** Prefixes, suffixes and instances *)

Lemma HasPrefix_app p s : HasPrefix (p ++ s) p = true.
Proof.
  induction p as [|c p IH]; [reflexivity|].
  rewrite string_app_cons. simpl. destruct (decide (c = c)); [exact IH | congruence].
Qed.

Lemma HasPrefix_app_l x y p : HasPrefix x p = true -> HasPrefix (x ++ y) p = true.
Proof.
  revert x. induction p as [|c p IH]; intros [|a x] H; try reflexivity;
    try discriminate.
  rewrite string_app_cons. simpl in *.
  destruct (decide (a = c)); [now apply IH | discriminate].
Qed.

Lemma HasPrefix_weaken s p q : HasPrefix s (p ++ q) = true -> HasPrefix s p = true.
Proof.
  revert s. induction p as [|c p IH]; intros s H; [reflexivity|].
  rewrite string_app_cons in H. destruct s as [|a s]; simpl in *; [discriminate|].
  destruct (decide (a = c)); [now apply IH | discriminate].
Qed.

Lemma HasPrefix_length s p :
  HasPrefix s p = true -> String.length p <= String.length s.
Proof.
  revert s. induction p as [|c p IH]; intros [|a s] H; simpl in *;
    try lia; try discriminate.
  destruct (decide (a = c)); [|discriminate]. apply IH in H. lia.
Qed.

Lemma dropBytes_app p s : dropBytes (String.length p) (p ++ s) = s.
Proof.
  induction p as [|c p IH]; [now destruct s|].
  rewrite string_app_cons. exact IH.
Qed.




Lemma Contains_cons a s p :
  Contains (String a s) p = HasPrefix (String a s) p || Contains s p.
Proof. reflexivity. Qed.

Lemma lastIndexFrom_cons i a s p :
  lastIndexFrom i (String a s) p
  = if decide (lastIndexFrom (i + 1)%Z s p = (-1)%Z)
    then (if HasPrefix (String a s) p then i else (-1)%Z)
    else lastIndexFrom (i + 1)%Z s p.
Proof. reflexivity. Qed.

Lemma Contains_app_l x y p : Contains x p = true -> Contains (x ++ y) p = true.
Proof.
  induction x as [|a x IH]; intros H.
  - simpl in H. rewrite orb_false_r in H. destruct p; [|discriminate].
    now destruct y.
  - rewrite Contains_cons in H. apply orb_true_iff in H as [H|H].
    + apply (HasPrefix_app_l _ y) in H.
      rewrite string_app_cons in *. rewrite Contains_cons, H. reflexivity.
    + rewrite string_app_cons, Contains_cons, (IH H). apply orb_true_r.
Qed.

(** An instance that [lastIndexFrom] finds lies inside the string. *)
Lemma lastIndexFrom_bounds i s p :
  (0 <= i)%Z ->
  lastIndexFrom i s p = (-1)%Z
  \/ (i <= lastIndexFrom i s p
      /\ lastIndexFrom i s p + Z.of_nat (String.length p)
         <= i + Z.of_nat (String.length s))%Z.
Proof.
  revert i. induction s as [|a s IH]; intros i Hi.
  - simpl. destruct p; simpl; [right; lia | now left].
  - rewrite lastIndexFrom_cons.
    destruct (decide (lastIndexFrom (i + 1) s p = (-1)%Z)) as [Hnone|Hsome].
    + destruct (HasPrefix (String a s) p) eqn:Hp; [|now left].
      right. apply HasPrefix_length in Hp. lia.
    + right. destruct (IH (i + 1)%Z ltac:(lia)) as [|[Hlo Hhi]]; [contradiction|].
      simpl String.length. lia.
Qed.

Lemma lastIndexFrom_none i s p :
  Contains s p = false -> lastIndexFrom i s p = (-1)%Z.
Proof.
  revert i. induction s as [|a s IH]; intros i H.
  - simpl in *. rewrite orb_false_r in H. now rewrite H.
  - rewrite Contains_cons in H.
    apply orb_false_iff in H as [Hhere Hlater].
    rewrite lastIndexFrom_cons, (IH _ Hlater), Hhere.
    destruct (decide ((-1)%Z = (-1)%Z)); [reflexivity | congruence].
Qed.

(** The last instance is the last one of any end part that has one. *)
Lemma lastIndexFrom_app i x s p :
  lastIndexFrom (i + Z.of_nat (String.length x)) s p ≠ (-1)%Z ->
  lastIndexFrom i (x ++ s) p
  = lastIndexFrom (i + Z.of_nat (String.length x)) s p.
Proof.
  revert i. induction x as [|a x IH]; intros i H.
  - simpl in *. now rewrite Z.add_0_r in *.
  - rewrite string_app_cons, lastIndexFrom_cons.
    replace (i + Z.of_nat (String.length (String a x)))%Z
      with (i + 1 + Z.of_nat (String.length x))%Z in * by (simpl; lia).
    rewrite (IH (i + 1)%Z H).
    destruct (decide (lastIndexFrom (i + 1 + Z.of_nat (String.length x)) s p
                      = (-1)%Z)); [contradiction | reflexivity].
Qed.

Lemma lastIndexFrom_skip i a s c p :
  a ≠ c ->
  lastIndexFrom (i + 1)%Z s (String c p) = (-1)%Z ->
  lastIndexFrom i (String a s) (String c p) = (-1)%Z.
Proof.
  intros Hne Hlater. rewrite lastIndexFrom_cons, Hlater. simpl.
  destruct (decide ((-1)%Z = (-1)%Z)); [|congruence].
  destruct (decide (a = c)); [contradiction | reflexivity].
Qed.

(** The closing tag cannot overlap itself, so when nothing after it has
    the tag, the tag at the front is the last instance. *)
Lemma lastIndexFrom_tag j body :
  Contains body "</think>" = false ->
  lastIndexFrom j ("</think>" ++ body) "</think>" = j.
Proof.
  intros Hbody.
  assert (Hafter : lastIndexFrom (j + 1)%Z ("/think>" ++ body) "</think>" = (-1)%Z).
  { rewrite !string_app_cons. change ("" ++ body) with body.
    repeat (apply lastIndexFrom_skip; [discriminate|]).
    now apply lastIndexFrom_none. }
  change ("</think>" ++ body) with (String "<" ("/think>" ++ body)).
  rewrite lastIndexFrom_cons, Hafter.
  destruct (decide ((-1)%Z = (-1)%Z)); [|congruence].
  change (String "<" ("/think>" ++ body)) with ("</think>" ++ body).
  now rewrite HasPrefix_app.
Qed.


Lemma TrimPrefix_not s p : HasPrefix s p = false -> TrimPrefix s p = s.
Proof. intros H. unfold TrimPrefix. now rewrite H. Qed.

Lemma TrimSuffix_not s q : HasSuffix s q = false -> TrimSuffix s q = s.
Proof. intros H. unfold TrimSuffix. now rewrite H. Qed.


(** ** ParseAIResponse *)

(** X10.  [ParseAIResponse] never panics: when it cuts the text after the
    last closing think tag, the bound [lastThinkEnd+8] is inside the text.  It
    always ends by decoding a text that has no white space around it. *)
Theorem ParseAIResponse_in_bounds Unmarshal resp :
  exists cleaned,
    ParseAIResponse Unmarshal resp = Done (unmarshalCleaned Unmarshal cleaned)
    /\ TrimSpace cleaned = cleaned.
Proof.
  unfold ParseAIResponse. cbv zeta.
  set (text := TrimSpace (TrimSuffix (TrimPrefix (TrimPrefix (TrimSpace resp)
                 "```json") "```") "```")).
  destruct (Contains text "<think>").
  - destruct (decide (LastIndex text "</think>" ≠ (-1)%Z)) as [Hfound|_].
    + unfold sliceFrom.
      destruct (lastIndexFrom_bounds 0 text "</think>" ltac:(lia)) as [|[Hlo Hhi]];
        [contradiction|].
      fold (LastIndex text "</think>") in Hlo, Hhi. simpl String.length in Hhi.
      destruct (decide (0 <= LastIndex text "</think>" + 8
                        <= Z.of_nat (String.length text))%Z); [|lia].
      eexists. split; [reflexivity | apply TrimSpace_idempotent].
    + eexists. split; [reflexivity | apply TrimSpace_idempotent].
  - eexists. split; [reflexivity | apply TrimSpace_idempotent].
Qed.



(** X12.  A think block is dropped: when the response has no white space
    and no fence around it, has an opening think tag before its last closing
    think tag and no closing tag after that one, [ParseAIResponse] decodes the
    text after the last closing tag, trimmed. *)
Theorem ParseAIResponse_think Unmarshal resp thinking body :
  resp = thinking ++ "</think>" ++ body ->
  TrimSpace resp = resp ->
  HasPrefix resp "```" = false ->
  HasSuffix resp "```" = false ->
  Contains thinking "<think>" = true ->
  Contains body "</think>" = false ->
  ParseAIResponse Unmarshal resp
  = Done (unmarshalCleaned Unmarshal (TrimSpace body)).
Proof.
  intros Hresp Htrim Hprefix Hsuffix Hopen Hclosed.
  unfold ParseAIResponse. cbv zeta.
  assert (Hjson : HasPrefix resp "```json" = false).
  { destruct (HasPrefix resp "```json") eqn:H; [|reflexivity].
    change "```json" with ("```" ++ "json") in H.
    apply HasPrefix_weaken in H. congruence. }
  rewrite Htrim, (TrimPrefix_not _ _ Hjson), (TrimPrefix_not _ _ Hprefix),
    (TrimSuffix_not _ _ Hsuffix), Htrim.
  assert (Hlast : LastIndex resp "</think>" = Z.of_nat (String.length thinking)).
  { unfold LastIndex. rewrite Hresp, lastIndexFrom_app.
    - now rewrite lastIndexFrom_tag.
    - rewrite lastIndexFrom_tag by assumption. lia. }
  rewrite Hlast.
  replace (Contains resp "<think>") with true
    by (rewrite Hresp; symmetry; now apply Contains_app_l).
  destruct (decide (Z.of_nat (String.length thinking) ≠ (-1)%Z)); [|lia].
  unfold sliceFrom.
  destruct (decide (0 <= Z.of_nat (String.length thinking) + 8
                    <= Z.of_nat (String.length resp))%Z) as [_|Hout].
  - replace (Z.to_nat (Z.of_nat (String.length thinking) + 8))
      with (String.length (thinking ++ "</think>"))
      by (rewrite string_length_app; simpl; lia).
    rewrite Hresp, <- string_app_assoc, dropBytes_app.
    simpl. now rewrite TrimSpace_idempotent.
  - exfalso. apply Hout. rewrite Hresp, !string_length_app. simpl. lia.
Qed.

Lemma ParseAIResponse_think_witness :
  let resp := "<think>a</think>b<think>c</think>" ++ String newline "[]" in
  ParseAIResponse decodeExample resp = Done (Ok []).
Proof.
  intros resp.
  rewrite (ParseAIResponse_think decodeExample resp
             "<think>a</think>b<think>c" (String newline "[]")).
  - vm_compute. reflexivity.
  - reflexivity.
  - vm_compute. reflexivity.
  - vm_compute. reflexivity.
  - vm_compute. reflexivity.
  - vm_compute. reflexivity.
  - vm_compute. reflexivity.
Defined.

(** X13.  Think text is removed only when both tags are there: a response
    without white space and fences around it that lacks the opening tag, or
    lacks the closing tag, is decoded as it is, whatever else it holds. *)
Theorem ParseAIResponse_untouched Unmarshal resp :
  TrimSpace resp = resp ->
  HasPrefix resp "```" = false ->
  HasSuffix resp "```" = false ->
  Contains resp "<think>" = false \/ Contains resp "</think>" = false ->
  ParseAIResponse Unmarshal resp = Done (unmarshalCleaned Unmarshal resp).
Proof.
  intros Htrim Hprefix Hsuffix Htags.
  unfold ParseAIResponse. cbv zeta.
  assert (Hjson : HasPrefix resp "```json" = false).
  { destruct (HasPrefix resp "```json") eqn:H; [|reflexivity].
    change "```json" with ("```" ++ "json") in H.
    apply HasPrefix_weaken in H. congruence. }
  rewrite Htrim, (TrimPrefix_not _ _ Hjson), (TrimPrefix_not _ _ Hprefix),
    (TrimSuffix_not _ _ Hsuffix), Htrim.
  destruct Htags as [Hopen|Hclose].
  - rewrite Hopen. simpl. now rewrite Htrim.
  - destruct (Contains resp "<think>"); [|simpl; now rewrite Htrim].
    unfold LastIndex. rewrite (lastIndexFrom_none _ _ _ Hclose).
    destruct (decide ((-1)%Z ≠ (-1)%Z)); [congruence|].
    simpl. now rewrite Htrim.
Qed.

Lemma ParseAIResponse_untouched_witness :
  ParseAIResponse decodeExample "reasoning</think>[]"
  = Done (Err (errorString
                 ("JSON unmarshal error: invalid character"
                  ++ String newline "Cleaned response: reasoning</think>[]")))
  /\ ParseAIResponse decodeExample "[]" = Done (Ok []).
Proof.
  split.
  - rewrite (ParseAIResponse_untouched decodeExample "reasoning</think>[]").
    + vm_compute. reflexivity.
    + vm_compute. reflexivity.
    + vm_compute. reflexivity.
    + vm_compute. reflexivity.
    + left. vm_compute. reflexivity.
  - rewrite (ParseAIResponse_untouched decodeExample "[]").
    + vm_compute. reflexivity.
    + vm_compute. reflexivity.
    + vm_compute. reflexivity.
    + vm_compute. reflexivity.
    + left. vm_compute. reflexivity.
Defined.

(** ** ReadCSVFile *)

Lemma forLoop_write (WriteRecord : list string -> string) (all : list (list string)) :
  forall (rows seen : list (list string)) (csvBuffer : string),
    all = (seen ++ rows)%list ->
    forLoop (length rows) (length seen)
      (fun i csvBuffer =>
         dataRow ← index all i;
         Done (csvBuffer ++ WriteRecord dataRow))
      csvBuffer
    = Done (csvBuffer ++ joinStrings (map WriteRecord rows)).
Proof.
  induction rows as [|row rows IH]; intros seen csvBuffer Hall; simpl.
  - now rewrite string_app_nil_r.
  - rewrite (index_lookup all (length seen) row).
    2:{ rewrite Hall. now apply list_lookup_middle. }
    simpl.
    specialize (IH (seen ++ [row])%list (csvBuffer ++ WriteRecord row)).
    rewrite length_app in IH. simpl in IH.
    rewrite Nat.add_1_r, <- app_assoc in IH.
    rewrite (IH Hall), string_app_assoc. reflexivity.
Qed.

(** X14.  [ReadCSVFile] never panics.  It hands on the error of opening or
    of reading the file as it is, refuses a file with fewer than two records,
    and otherwise returns the records of the file written out again, all of
    them, header first, in the order of the file. *)
Theorem ReadCSVFile_rewrites_records (File : Type) (Open : string -> result File)
    (ReadAllLazy : File -> result (list (list string)))
    (WriteRecord : list string -> string) (path : string) :
  (forall err,
     Open path = Err err ->
     ReadCSVFile File Open ReadAllLazy WriteRecord path = Done (Err err))
  /\ (forall file err,
        Open path = Ok file -> ReadAllLazy file = Err err ->
        ReadCSVFile File Open ReadAllLazy WriteRecord path = Done (Err err))
  /\ (forall file records,
        Open path = Ok file -> ReadAllLazy file = Ok records ->
        ReadCSVFile File Open ReadAllLazy WriteRecord path
        = Done (if decide (length records < 2)
                then Err (errorString
                            "CSV must have at least header and one data row")
                else Ok (joinStrings (map WriteRecord records)))).
Proof.
  unfold ReadCSVFile. split; [|split].
  - intros err ->. reflexivity.
  - intros file err -> ->. reflexivity.
  - intros file records -> ->.
    destruct (decide (length records < 2)) as [|Hlen]; [reflexivity|].
    destruct records as [|headers dataRows]; [simpl in Hlen; lia|].
    simpl. unfold sliceList. simpl.
    destruct (decide (1 <= S (length dataRows))); [|lia]. simpl.
    rewrite drop_0.
    rewrite (forLoop_write WriteRecord dataRows dataRows [] _ eq_refl).
    reflexivity.
Qed.

Lemma ReadCSVFile_rewrites_records_witness :
  let Open := fun path : string =>
    if decide (path = "in.csv") then Ok (line "id,name" ++ line "7,Ann" ++ line "8,Bob")
    else Err (errorString "no such file or directory") in
  ReadCSVFile string Open readUnquoted writeUnquoted "in.csv"
  = Done (Ok (line "id,name" ++ line "7,Ann" ++ line "8,Bob"))
  /\ ReadCSVFile string Open readUnquoted writeUnquoted "out.csv"
     = Done (Err (errorString "no such file or directory")).
Proof.
  intros Open.
  destruct (ReadCSVFile_rewrites_records string Open readUnquoted writeUnquoted "in.csv")
    as (_ & _ & Hrecords).
  destruct (ReadCSVFile_rewrites_records string Open readUnquoted writeUnquoted "out.csv")
    as (Hopen & _ & _).
  split.
  - rewrite (Hrecords (line "id,name" ++ line "7,Ann" ++ line "8,Bob")
               [["id"; "name"]; ["7"; "Ann"]; ["8"; "Bob"]]).
    + vm_compute. reflexivity.
    + reflexivity.
    + vm_compute. reflexivity.
  - apply Hopen. reflexivity.
Defined.
